(** * Quiz generation, quiz progression and chat routing of [app.py]

    A shallow embedding of the handlers of [app.py]
    ([generate_quiz_questions_with_rag], [submit_answer], [next_question],
    [chat_response]) together with the Python string primitives they use.

    Modelling conventions.
    - A Python [str] is a [list ascii], the bytes of its UTF-8 text.
      Concatenation, [in], [split] and [join] with ASCII separators are
      Python's on all text.  [strip], [upper], [lower], [isdigit], [int]
      and the subscript of a string are Python's on ASCII text (code
      points 0..127): outside it Python also strips Unicode white space,
      maps characters to other or to several characters and accepts other
      digits.  A statement whose truth depends on that carries an
      [is_ascii] hypothesis.
    - Python integers are [Z]; [int] refuses strings of more than 4300
      digits, CPython's default limit.
    - The three module globals [quiz_data], [current_question] and
      [answer_submitted] form the record [Session]; handlers run in a small
      state-and-exception monad over it, with the exceptions [IndexError],
      [ValueError] and [AttributeError].
    - The hosted completion call is outside the program: its outcome for one
      call is an input of the handler that makes the call. *)

From Stdlib Require Import Ascii String List ZArith Lia Bool.
From Stdlib Require DecimalString DecimalPos.
Import ListNotations.

(** ** Python strings *)

Module PyStr.

Definition str := list ascii.

Definition lit (s : string) : str := list_ascii_of_string s.

Definition code (c : ascii) : N := N_of_ascii c.

(** [str.isspace] on one ASCII character: TAB..CR, FS..US and SPACE.
    Python's white space outside ASCII (U+0085, U+00A0, ...) is not
    recognised: see [is_ascii]. *)
Definition isspace (c : ascii) : bool :=
  let n := code c in
  (((9 <=? n) && (n <=? 13)) || ((28 <=? n) && (n <=? 32)))%N.

(** A decimal digit 0..9; the digit characters of Python outside ASCII are
    not recognised: see [is_ascii]. *)
Definition isdigit_char (c : ascii) : bool :=
  let n := code c in ((48 <=? n) && (n <=? 57))%N.

(** [str.upper] and [str.lower] on one ASCII character; outside ASCII
    Python's case mappings differ and may give several characters: see
    [is_ascii]. *)
Definition upper_char (c : ascii) : ascii :=
  let n := code c in
  if ((97 <=? n) && (n <=? 122))%N then ascii_of_N (n - 32) else c.

Definition lower_char (c : ascii) : ascii :=
  let n := code c in
  if ((65 <=? n) && (n <=? 90))%N then ascii_of_N (n + 32) else c.

Definition upper (s : str) : str := map upper_char s.
Definition lower (s : str) : str := map lower_char s.

Fixpoint lstrip (s : str) : str :=
  match s with
  | c :: s' => if isspace c then lstrip s' else s
  | [] => []
  end.

Definition rstrip (s : str) : str := rev (lstrip (rev s)).

(** [s.strip()] *)
Definition strip (s : str) : str := rstrip (lstrip s).

Fixpoint str_eqb (a b : str) : bool :=
  match a, b with
  | [], [] => true
  | x :: a', y :: b' => Ascii.eqb x y && str_eqb a' b'
  | _, _ => false
  end.

(** [s.startswith(sep)] *)
Fixpoint startswith (sep s : str) : bool :=
  match sep, s with
  | [], _ => true
  | x :: sep', y :: s' => Ascii.eqb x y && startswith sep' s'
  | _ :: _, [] => false
  end.

(** [sep in s] *)
Fixpoint contains (sep s : str) : bool :=
  startswith sep s ||
  match s with
  | [] => false
  | _ :: s' => contains sep s'
  end.

(** [s.split(sep)] for a non-empty [sep] (Python raises [ValueError] on an
    empty separator; every call site of [app.py] passes a literal).  The scan
    goes left to right; [skip] counts the characters of a matched separator
    still to be passed over, [cur] is the piece being read, reversed. *)
Fixpoint split_go (sep : str) (skip : nat) (cur : str) (s : str) : list str :=
  match s with
  | [] => [rev cur]
  | c :: s' =>
      match skip with
      | S k => split_go sep k cur s'
      | O =>
          if startswith sep s
          then rev cur :: split_go sep (length sep - 1) [] s'
          else split_go sep 0 (c :: cur) s'
      end
  end.

Definition split (sep s : str) : list str := split_go sep 0 [] s.

(** A separator whose first character occurs nowhere else in it cannot
    overlap itself, so the left-to-right scan of [split] sees every
    occurrence.  Both markers of the quiz format are of this kind. *)
Definition head_unique (sep : str) : bool :=
  match sep with
  | [] => false
  | c :: tl => negb (existsb (Ascii.eqb c) tl)
  end.

(** [s.isdigit()]: non-empty and decimal digits only. *)
Definition isdigit (s : str) : bool :=
  match s with
  | [] => false
  | _ => forallb isdigit_char s
  end.

Definition digit_val (c : ascii) : Z := Z.of_N (code c) - 48.

(** The base-10 value of a string of decimal digits. *)
Definition decimal_value (s : str) : Z :=
  fold_left (fun acc c => 10 * acc + digit_val c)%Z s 0%Z.

(** CPython's default limit on the number of digits of an integer
    string. *)
Definition max_str_digits : nat := 4300.

(** [int(s)] for a string [s] of ASCII decimal digits, the strings line 226
    passes under its [isdigit] test; [None] stands for the [ValueError]
    raised for more than [max_str_digits] digits, leading zeros counted. *)
Definition int (s : str) : option Z :=
  if (max_str_digits <? List.length s)%nat then None
  else Some (decimal_value s).

(** Code points 0..127.  [isspace], [isdigit], [upper] and [lower] above
    and [int] are Python's on strings of such characters; the statements
    that depend on what they do to other characters assume ASCII text. *)
Definition is_ascii_char (c : ascii) : bool := (code c <? 128)%N.

Definition is_ascii (s : str) : bool := forallb is_ascii_char s.

(** [l[i]] with Python's negative indices; [None] stands for [IndexError]. *)
Definition py_index {A : Type} (l : list A) (i : Z) : option A :=
  let n := Z.of_nat (List.length l) in
  if (i <? 0)%Z
  then (if (0 <=? n + i)%Z then nth_error l (Z.to_nat (n + i)) else None)
  else nth_error l (Z.to_nat i).

(** [l[:n]] with Python's negative bound. *)
Definition slice_to {A : Type} (l : list A) (n : Z) : list A :=
  let len := Z.of_nat (List.length l) in
  if (n <? 0)%Z
  then firstn (Z.to_nat (Z.max 0 (len + n))) l
  else firstn (Z.to_nat n) l.

Definition nl : ascii := ascii_of_N 10.

End PyStr.

Import PyStr.

(** ** Data model *)

(** One entry of [quiz_data]: the tuple
    [(question_text, options, correct_answer, explanation)]. *)
Record Question : Type := mkQuestion {
  question_text : str;
  options : list str;
  correct_answer : str;
  explanation : str
}.

(** The module globals. *)
Record Session : Type := mkSession {
  quiz_data : list Question;
  current_question : Z;
  answer_submitted : bool
}.

(** Globals at import time. *)
Definition initial_session : Session :=
  {| quiz_data := []; current_question := 0%Z; answer_submitted := false |}.

(** Outcome of one call of [client.chat.completions.create] followed by
    [response.choices[0].message.content]: the text, or an exception. *)
Inductive Completion : Type :=
| Content (text : str)
| Failed (e : str).

Inductive exn : Type :=
| IndexError
| ValueError
| AttributeError.

(** ** Handlers as state-and-exception computations *)

Module Handler.

Definition M (A : Type) : Type := Session -> (exn + A) * Session.

Definition ret {A} (a : A) : M A := fun st => (inr a, st).

Definition bind {A B} (m : M A) (k : A -> M B) : M B :=
  fun st =>
    match m st with
    | (inr a, st') => k a st'
    | (inl e, st') => (inl e, st')
    end.

Definition raise {A} (e : exn) : M A := fun st => (inl e, st).

Definition read {A} (f : Session -> A) : M A := fun st => (inr (f st), st).

Definition set_quiz_data (v : list Question) : M unit :=
  fun st => (inr tt, {| quiz_data := v;
                        current_question := current_question st;
                        answer_submitted := answer_submitted st |}).

Definition set_current_question (v : Z) : M unit :=
  fun st => (inr tt, {| quiz_data := quiz_data st;
                        current_question := v;
                        answer_submitted := answer_submitted st |}).

Definition set_answer_submitted (v : bool) : M unit :=
  fun st => (inr tt, {| quiz_data := quiz_data st;
                        current_question := current_question st;
                        answer_submitted := v |}).

(** Subscript that raises [IndexError] out of range. *)
Definition subscript {A} (l : list A) (i : Z) : M A :=
  match py_index l i with
  | Some a => ret a
  | None => raise IndexError
  end.

End Handler.

Import Handler.

Declare Scope handler_scope.
Delimit Scope handler_scope with handler.
Notation "x <- c ;; k" := (bind c (fun x => k))
  (at level 61, c at next level, right associativity) : handler_scope.
Notation "c ;; k" := (bind c (fun _ => k))
  (at level 61, right associativity) : handler_scope.
Local Open Scope handler_scope.

(** ** [generate_quiz_questions_with_rag] *)

Definition marker_answer : str := lit "Correct Answer:".
Definition marker_explanation : str := lit "Explanation:".
Definition blank_line : str := [nl; nl].

(** The test of the loop, line 93. *)
Definition accepted (question : str) : bool :=
  contains marker_answer question && contains marker_explanation question.

(** The body of the [if], lines 94-98: the tuple appended for one block.
    [split] never returns an empty list (lemma [split_not_nil]), so the
    subscripts [[0]] and [[-1]] are [hd] and [last]. *)
Definition parse_block (question : str) : Question :=
  {| question_text := strip (hd [] (split marker_answer question));
     options := [lit "A"; lit "B"; lit "C"; lit "D"];
     correct_answer :=
       strip (hd [] (split marker_explanation
                       (last (split marker_answer question) [])));
     explanation := strip (last (split marker_explanation question) []) |}.

(** One iteration of the [for] loop over the blocks. *)
Definition parse_step (parsed_questions : list Question) (question : str)
  : list Question :=
  if accepted question
  then parsed_questions ++ [parse_block question]
  else parsed_questions.

Definition sentinel : Question :=
  {| question_text := lit "Error: Failed to generate quiz.";
     options := [];
     correct_answer := lit "N/A";
     explanation := lit "No explanation available." |}.

(** Lines 87 and 90: the blocks of a completion text. *)
Definition quiz_blocks (text : str) : list str :=
  let quiz_text := strip text in
  split blank_line quiz_text.

(** Lines 80-102.  [query] only reaches the retriever and the prompt, whose
    effect is the completion outcome [c]. *)
Definition generate_quiz_questions_with_rag
  (query : str) (num_questions : Z) (c : Completion) : list Question :=
  match c with
  | Content text =>
      let questions := quiz_blocks text in
      let parsed_questions := fold_left parse_step questions [] in
      slice_to parsed_questions num_questions
  | Failed _ => [sentinel]
  end.

(** ** [submit_answer] *)

Definition msg_correct : str := lit "✅ Correct!".

Definition msg_incorrect (correct_answer explanation : str) : str :=
  lit "❌ Incorrect. The correct answer is: " ++ correct_answer
    ++ [nl; nl] ++ lit "💡 Explanation: " ++ explanation.

Definition msg_no_more : str := lit "No more questions!".

(** Lines 148-155: the comparison; [IndexError] when nothing is left of the
    answer after [strip]. *)
Definition is_correct (user_answer correct_answer : str) : M bool :=
  first <- subscript (strip user_answer) 0 ;;
  let normalized_user_answer := upper [first] in
  let normalized_correct_answer := upper (strip correct_answer) in
  ret (str_eqb normalized_user_answer normalized_correct_answer).

(** Result: feedback text, then the [interactive] flags of the submit and
    next buttons.  The debugging [print] is left out.  [user_answer] is a
    selected label; the value [None] of a Radio without a selection is
    handled by [submit_answer_click] below. *)
Definition submit_answer (user_answer : str) : M (str * bool * bool) :=
  cur <- read current_question ;;
  data <- read quiz_data ;;
  if (cur <? Z.of_nat (List.length data))%Z then
    q <- subscript data cur ;;
    ok <- is_correct user_answer (correct_answer q) ;;
    let feedback_msg :=
      if ok then msg_correct
      else msg_incorrect (correct_answer q) (explanation q) in
    set_answer_submitted true ;;
    ret (feedback_msg, false, true)
  else
    ret (msg_no_more, false, false).

(** ** [next_question] *)

Definition msg_finished : str := lit "Quiz finished!".

(** Result: question text, answer choices, feedback, and the two
    [interactive] flags. *)
Definition next_question : M (str * list str * str * bool * bool) :=
  submitted <- read answer_submitted ;;
  cur <- read current_question ;;
  data <- read quiz_data ;;
  if submitted && (cur <? Z.of_nat (List.length data) - 1)%Z then
    set_current_question (cur + 1)%Z ;;
    q <- subscript data (cur + 1)%Z ;;
    set_answer_submitted false ;;
    ret (question_text q, options q, [], true, false)
  else if (Z.of_nat (List.length data) =? 1)%Z then
    ret (lit "No more questions available!", [], msg_finished, false, false)
  else
    ret (lit "Quiz completed!", [], msg_finished, false, false).

(** ** [handle_prompt] and [chat_response] *)

Definition handle_prompt (query : str) (c : Completion) : str :=
  match c with
  | Content text => strip text
  | Failed e => lit "Error: " ++ e
  end.

Definition History : Type := list (str * str).

(** Line 226: [IndexError] without a third token, [ValueError] when
    [int] refuses a digit string. *)
Definition quiz_count (query : str) : M Z :=
  token <- subscript (split (lit " ") query) 2 ;;
  if isdigit token then
    match int token with
    | Some n => ret n
    | None => raise ValueError
    end
  else ret 5%Z.

(** Result: chat history, question text, answer choices, feedback, and the
    two [interactive] flags.  [c] is the outcome of the one completion call
    the request makes. *)
Definition chat_response (history : History) (query : str) (c : Completion)
  : M (History * str * list str * str * bool * bool) :=
  if contains (lit "quiz") (lower query) then
    num_questions <- quiz_count query ;;
    set_quiz_data [] ;;
    old <- read quiz_data ;;
    set_quiz_data (old ++ generate_quiz_questions_with_rag query num_questions c) ;;
    set_current_question 0%Z ;;
    set_answer_submitted false ;;
    data <- read quiz_data ;;
    match data with
    | q0 :: _ =>
        ret (history ++ [(query, lit "Quiz started!")],
             question_text q0, options q0, [], true, false)
    | [] =>
        ret (history ++ [(query, lit "Failed to generate quiz.")],
             lit "No questions available.", [], [], false, false)
    end
  else if contains (lit "summarize") (lower query)
          || contains (lit "summarise") (lower query) then
    ret (history ++ [(query, handle_prompt query c)], [], [], [], false, false)
  else
    ret (history ++ [(query, handle_prompt query c)], [], [], [], false, false).

(** [submit_answer] as the click handler of line 165 calls it: the value
    of the Radio is the selected label, or [None] while nothing is
    selected, on which [user_answer.strip()] of line 148 raises
    [AttributeError]. *)
Definition submit_answer_click (value : option str)
  : M (str * bool * bool) :=
  match value with
  | Some user_answer => submit_answer user_answer
  | None =>
      cur <- read current_question ;;
      data <- read quiz_data ;;
      if (cur <? Z.of_nat (List.length data))%Z then
        q <- subscript data cur ;;
        raise AttributeError
      else
        ret (msg_no_more, false, false)
  end.

(** ** Requests and reachable sessions *)

Inductive Request : Type :=
| Chat (history : History) (query : str) (c : Completion)
| SubmitAnswer (user_answer : str)
| NextQuestion.

(** The globals after a handler has returned or raised. *)
Definition handle (r : Request) (st : Session) : Session :=
  match r with
  | Chat history query c => snd (chat_response history query c st)
  | SubmitAnswer user_answer => snd (submit_answer user_answer st)
  | NextQuestion => snd (next_question st)
  end.

Inductive reachable : Session -> Prop :=
| reach_initial : reachable initial_session
| reach_handle (r : Request) (st : Session) :
    reachable st -> reachable (handle r st).

(** ** Abbreviations used in the statements *)

(** [len(quiz_data)] *)
Definition questions_count (st : Session) : Z :=
  Z.of_nat (List.length (quiz_data st)).

(** What [next_question] returns when it does not move on (lines 177-181). *)
Definition closing_result (st : Session)
  : str * list str * str * bool * bool :=
  if (questions_count st =? 1)%Z
  then (lit "No more questions available!", [], msg_finished, false, false)
  else (lit "Quiz completed!", [], msg_finished, false, false).

(** The session with the submitted flag set, everything else as it was. *)
Definition mark_submitted (st : Session) : Session :=
  {| quiz_data := quiz_data st;
     current_question := current_question st;
     answer_submitted := true |}.

(** The feedback of [submit_answer] for a comparison result (line 157). *)
Definition feedback_for (q : Question) (ok : bool) : str :=
  if ok then msg_correct
  else msg_incorrect (correct_answer q) (explanation q).

(** ** The specification's words

    "The text before the marker" and "the text after the marker", defined
    through [str.find] and [str.rfind] rather than through [split], and the
    other notions of the specification that the statements below compare
    the handlers with. *)

Module SpecWords.

(** [s.find(sep)], [None] for -1. *)
Fixpoint find (sep s : str) : option nat :=
  if startswith sep s then Some O
  else match s with
       | [] => None
       | _ :: s' => option_map S (find sep s')
       end.

(** [s.rfind(sep)], [None] for -1. *)
Fixpoint rfind (sep s : str) : option nat :=
  match s with
  | [] => if startswith sep [] then Some O else None
  | _ :: s' =>
      match rfind sep s' with
      | Some i => Some (S i)
      | None => if startswith sep s then Some O else None
      end
  end.

(** The text before the first occurrence of [sep]; all of [s] without one. *)
Definition before_first (sep s : str) : str :=
  match find sep s with
  | Some i => firstn i s
  | None => s
  end.

(** The text after the last occurrence of [sep]; all of [s] without one. *)
Definition after_last (sep s : str) : str :=
  match rfind sep s with
  | Some i => skipn (i + List.length sep) s
  | None => s
  end.

(** The comparison of [submit_answer] as the specification words it: the
    first character of the label as given, uppercased, against the
    uppercased correct label. *)
Definition first_char_matches (selected_label correct_label : str)
  : option bool :=
  match selected_label with
  | [] => None
  | c :: _ => Some (str_eqb (upper [c]) (upper correct_label))
  end.

(** The state "AwaitingAnswer" of the specification: a valid position whose
    question has not been submitted. *)
Definition awaiting_answer (st : Session) : bool :=
  negb (answer_submitted st)
  && (0 <=? current_question st)%Z
  && (current_question st <? questions_count st)%Z.

(** Whether a result of [next_question] says "cannot advance yet" in its
    question text or in its feedback, in any letter case. *)
Definition reports_cannot_advance
  (out : str * list str * str * bool * bool) : bool :=
  let '(text, _, feedback, _, _) := out in
  contains (lit "cannot advance") (lower text)
  || contains (lit "cannot advance") (lower feedback).

End SpecWords.

Import SpecWords.

(** ** Sample data *)

Definition q_sample : Question :=
  {| question_text := lit "Q1";
     options := [lit "A"; lit "B"; lit "C"; lit "D"];
     correct_answer := lit "B";
     explanation := lit "because" |}.

Definition q_other : Question :=
  {| question_text := lit "Q2";
     options := [lit "A"; lit "B"; lit "C"; lit "D"];
     correct_answer := lit "d";
     explanation := lit "so" |}.

Definition session_one (submitted : bool) : Session :=
  {| quiz_data := [q_sample];
     current_question := 0%Z;
     answer_submitted := submitted |}.

Definition session_two (position : Z) (submitted : bool) : Session :=
  {| quiz_data := [q_sample; q_other];
     current_question := position;
     answer_submitted := submitted |}.

Definition block_sample (stem answer why : string) : str :=
  lit stem ++ [nl] ++ marker_answer ++ lit answer ++ [nl]
    ++ marker_explanation ++ lit why.

(** Four well-formed blocks with a malformed one in between. *)
Definition text_four_blocks : str :=
  block_sample "Question: one" " a" " e1" ++ blank_line
  ++ lit "no markers here" ++ blank_line
  ++ block_sample "Question: two" " B" " e2" ++ blank_line
  ++ block_sample "Question: three" " c " " e3" ++ blank_line
  ++ block_sample "Question: four" " D" " e4" ++ [nl].

Definition query_three : str := lit "give me a quiz with 3 questions".

(** ** Retrieval, prompts and the completion request

    The parts of [app.py] around the handlers above: the retriever, the
    assembly of the context, the prompts, and the upload path.  The vector
    store, the PDF loader and the completion client are outside the
    program; each is a function or an outcome handed to the code that calls
    it. *)

Module Prompt.

(** [sep.join(parts)] *)
Fixpoint join (sep : str) (parts : list str) : str :=
  match parts with
  | [] => []
  | [p] => p
  | p :: (_ :: _) as rest => p ++ sep ++ join sep rest
  end.

(** [str(n)], as the f-string of line 64 renders [num_questions]: the
    decimal text of [n].  The counts that reach line 64 are 5 or a value of
    [int], of at most [max_str_digits] digits, below Python's limit for
    [str]. *)
Definition str_of_int (n : Z) : str :=
  lit (DecimalString.NilZero.string_of_int (Z.to_int n)).

(** Outcome of [vectorstore.similarity_search(query, k=top_k)]: the page
    contents of the documents found, or an exception. *)
Inductive Retrieval : Type :=
| Found (page_contents : list str)
| SearchFailed (e : str).

Definition VectorStore : Type := str -> Z -> Retrieval.

(** Lines 46-52. *)
Definition retrieve_relevant_chunks
  (vectorstore : VectorStore) (query : str) (top_k : Z) : list str :=
  match vectorstore query top_k with
  | Found page_contents => page_contents
  | SearchFailed e => [lit "Error retrieving documents: " ++ e]
  end.

(** One chat message: role and content. *)
Definition Message : Type := (str * str)%type.

(** The arguments of [client.chat.completions.create]; the temperature, a
    float constant, is left out. *)
Record CompletionRequest : Type := mkRequest {
  model : str;
  messages : list Message;
  max_tokens : Z
}.

Definition Client : Type := CompletionRequest -> Completion.

Definition indent (n : nat) : str := repeat " "%char n.

(** The user message of lines 63-77. *)
Definition quiz_user_content (num_questions : Z) (context : str) : str :=
  [nl]
  ++ indent 12 ++ lit "Generate exactly " ++ str_of_int num_questions
  ++ lit " multiple-choice quiz questions based on the following context."
  ++ [nl] ++ [nl]
  ++ indent 12 ++ lit "### Format:" ++ [nl]
  ++ indent 12 ++ lit "- Question: <question>" ++ [nl]
  ++ indent 12 ++ lit "- A) <option1>" ++ [nl]
  ++ indent 12 ++ lit "- B) <option2>" ++ [nl]
  ++ indent 12 ++ lit "- C) <option3>" ++ [nl]
  ++ indent 12 ++ lit "- D) <option4>" ++ [nl]
  ++ indent 12 ++ lit "- Correct Answer: <correct_option>" ++ [nl]
  ++ indent 12 ++ lit "- Explanation: <why correct>" ++ [nl] ++ [nl]
  ++ indent 12 ++ lit "Context:" ++ [nl]
  ++ indent 12 ++ context ++ [nl]
  ++ indent 8.

(** Lines 58-86: the request [generate_quiz_questions_with_rag] sends. *)
Definition quiz_request
  (vectorstore : VectorStore) (query : str) (num_questions : Z)
  : CompletionRequest :=
  let retrieved_chunks := retrieve_relevant_chunks vectorstore query 3 in
  let context := join blank_line retrieved_chunks in
  {| model := lit "gpt-4o-mini";
     messages :=
       [(lit "system",
         lit "You are a helpful assistant that generates multiple-choice quiz questions.");
        (lit "user", quiz_user_content num_questions context)];
     max_tokens := 1000 |}.

(** [generate_quiz_questions_with_rag] with its collaborators. *)
Definition generate_quiz
  (vectorstore : VectorStore) (client : Client)
  (query : str) (num_questions : Z) : list Question :=
  generate_quiz_questions_with_rag query num_questions
    (client (quiz_request vectorstore query num_questions)).

(** The user message of lines 198-206. *)
Definition answer_user_content (context query : str) : str :=
  [nl]
  ++ indent 24 ++ lit "Based on the following context, answer the query:"
  ++ [nl] ++ [nl]
  ++ indent 24 ++ lit "Context:" ++ [nl]
  ++ indent 24 ++ context ++ [nl] ++ [nl]
  ++ indent 24 ++ lit "Query:" ++ [nl]
  ++ indent 24 ++ query ++ [nl]
  ++ indent 20.

(** Line 190. *)
Definition wants_summary (query : str) : bool :=
  contains (lit "summarize") (lower query)
  || contains (lit "summarise") (lower query).

(** Lines 186-215: the request [handle_prompt] sends. *)
Definition prompt_request (vectorstore : VectorStore) (query : str)
  : CompletionRequest :=
  let retrieved_chunks := retrieve_relevant_chunks vectorstore query 3 in
  let context := join blank_line retrieved_chunks in
  {| model := lit "gpt-4o-mini";
     messages :=
       if wants_summary query then
         [(lit "system",
           lit "You are an AI assistant that summarizes documents.");
          (lit "user",
           lit "Summarize the following text:" ++ [nl; nl] ++ context)]
       else
         [(lit "system",
           lit "You are a helpful assistant that answers questions.");
          (lit "user", answer_user_content context query)];
     max_tokens := 300 |}.

(** The completion outcome a request to [chat_response] meets: that of the
    quiz request when the query is a quiz request whose count can be read,
    that of the [handle_prompt] request otherwise.  When the count cannot
    be read [chat_response] raises before any call is made. *)
Definition completion_for
  (vectorstore : VectorStore) (client : Client) (query : str) : Completion :=
  if contains (lit "quiz") (lower query) then
    match fst (quiz_count query initial_session) with
    | inr num_questions =>
        client (quiz_request vectorstore query num_questions)
    | inl _ => Failed []
    end
  else client (prompt_request vectorstore query).

(** [chat_response] with its collaborators. *)
Definition chat
  (vectorstore : VectorStore) (client : Client)
  (history : History) (query : str)
  : M (History * str * list str * str * bool * bool) :=
  chat_response history query (completion_for vectorstore client query).

(** Outcome of loading, splitting and storing a PDF (lines 29-38). *)
Inductive Ingestion : Type :=
| Stored
| IngestionFailed (e : str).

(** Lines 26-41; [ingest] is the outcome of the loader, the splitter and
    the store for the path. *)
Definition preprocess_pdf_to_knowledge_base
  (ingest : str -> Ingestion) (pdf_path : str) : str :=
  match ingest pdf_path with
  | Stored => lit "Knowledge base loaded successfully!"
  | IngestionFailed e => lit "Error processing PDF: " ++ e
  end.

(** Lines 118-123; [file] is the name of the uploaded file, [None] when
    nothing was uploaded.  The assignment to the global [knowledge_base],
    which nothing reads, is left out. *)
Definition process_upload (ingest : str -> Ingestion) (file : option str)
  : str :=
  match file with
  | Some name => preprocess_pdf_to_knowledge_base ingest name
  | None => lit "Error: No file uploaded!"
  end.

End Prompt.

Import Prompt.

(** The content of the user message of a request: the second of its two
    messages. *)
Definition user_content (r : CompletionRequest) : str :=
  match messages r with
  | [_; (_, content)] => content
  | _ => []
  end.

(** The text [retrieve_relevant_chunks] returns in place of passages when
    the search raises (line 52). *)
Definition retrieval_error (e : str) : str :=
  lit "Error retrieving documents: " ++ e.

(** ** Walking through a quiz *)

(** A session right after a quiz was started with the questions [data]. *)
Definition fresh_quiz (data : list Question) : Session :=
  {| quiz_data := data; current_question := 0%Z; answer_submitted := false |}.

(** Submit an answer, then press "Next Question". *)
Definition answer_and_advance (st : Session) (user_answer : str) : Session :=
  handle NextQuestion (handle (SubmitAnswer user_answer) st).

(** The requests of the quiz panel: an answer or "Next Question". *)
Definition quiz_panel_request (r : Request) : bool :=
  match r with
  | Chat _ _ _ => false
  | SubmitAnswer _ => true
  | NextQuestion => true
  end.

(** The session after a sequence of requests. *)
Definition run (requests : list Request) (st : Session) : Session :=
  fold_left (fun s r => handle r s) requests st.

(** A question as the parser or the failure path produces it. *)
Definition generated_question (q : Question) : Prop :=
  q = sentinel \/ exists b : str, accepted b = true /\ q = parse_block b.

(** * Facts about the string primitives *)

Lemma str_eqb_refl (a : str) : str_eqb a a = true.
Proof.
  induction a as [|x a IH]; simpl; [reflexivity|].
  now rewrite Ascii.eqb_refl, IH.
Qed.

Lemma str_eqb_eq (a b : str) : str_eqb a b = true <-> a = b.
Proof.
  split.
  - revert b; induction a as [|x a IH]; intros [|y b]; simpl; try easy.
    intros H; apply andb_true_iff in H as [Hxy Hab].
    apply Ascii.eqb_eq in Hxy. f_equal; auto.
  - intros ->; apply str_eqb_refl.
Qed.

Lemma startswith_app (sep t : str) : startswith sep (sep ++ t) = true.
Proof.
  induction sep as [|x sep IH]; simpl; [reflexivity|].
  now rewrite Ascii.eqb_refl.
Qed.

Lemma startswith_split (sep s : str) :
  startswith sep s = true -> s = sep ++ skipn (List.length sep) s.
Proof.
  revert s; induction sep as [|x sep IH]; intros s H; simpl in *.
  - reflexivity.
  - destruct s as [|y s]; [discriminate|].
    apply andb_true_iff in H as [Hxy Hs].
    apply Ascii.eqb_eq in Hxy; subst y.
    simpl. f_equal. now apply IH.
Qed.

Lemma startswith_length (sep s : str) :
  startswith sep s = true -> (List.length sep <= List.length s)%nat.
Proof.
  intros H. apply startswith_split in H. rewrite H, length_app. lia.
Qed.

Lemma contains_app_r (sep a t : str) :
  contains sep t = true -> contains sep (a ++ t) = true.
Proof.
  intros H; induction a as [|x a IH]; simpl; [assumption|].
  rewrite IH. apply orb_true_r.
Qed.

Lemma contains_marker (sep a t : str) : contains sep (a ++ sep ++ t) = true.
Proof.
  apply contains_app_r.
  destruct (sep ++ t) eqn:E; simpl; rewrite <- E, startswith_app; reflexivity.
Qed.

(** *** [split] *)

Section Split.

Variable sep : str.
Hypothesis sep_not_empty : sep <> [].

Lemma sep_length_pos : (0 < List.length sep)%nat.
Proof.
  destruct sep eqn:E; [now elim sep_not_empty|simpl; lia].
Qed.

Lemma split_go_skip (k : nat) (cur s : str) :
  (k <= List.length s)%nat ->
  split_go sep k cur s = split_go sep 0 cur (skipn k s).
Proof.
  revert s; induction k as [|k IH]; intros s Hk.
  - reflexivity.
  - destruct s as [|c s]; simpl in Hk; [lia|].
    simpl. apply IH. lia.
Qed.

Lemma split_go_match (cur s : str) :
  startswith sep s = true ->
  split_go sep 0 cur s
  = rev cur :: split_go sep 0 [] (skipn (List.length sep) s).
Proof.
  intros H. pose proof (startswith_length _ _ H) as Hlen.
  pose proof sep_length_pos as Hpos.
  destruct s as [|c s]; simpl in Hlen; [lia|].
  cbn [split_go]. rewrite H. f_equal.
  rewrite split_go_skip by lia.
  replace (List.length sep) with (S (List.length sep - 1)) at 2 by lia.
  reflexivity.
Qed.

Lemma split_go_no_match (cur : str) (c : ascii) (s : str) :
  startswith sep (c :: s) = false ->
  split_go sep 0 cur (c :: s) = split_go sep 0 (c :: cur) s.
Proof. intros H. cbn [split_go]. now rewrite H. Qed.

Lemma split_go_not_nil (k : nat) (cur s : str) : split_go sep k cur s <> [].
Proof.
  revert k cur; induction s as [|c s IH]; intros k cur; simpl.
  - discriminate.
  - destruct k; [|apply IH].
    destruct (startswith sep (c :: s)); [discriminate|apply IH].
Qed.

Lemma split_not_nil (s : str) : split sep s <> [].
Proof. apply split_go_not_nil. Qed.

Lemma startswith_nil : startswith sep [] = false.
Proof.
  destruct (startswith sep []) eqn:E; [|reflexivity].
  apply startswith_length in E. pose proof sep_length_pos. simpl in E. lia.
Qed.

(** The first piece is the text before the first occurrence. *)
Lemma split_go_hd (cur s : str) :
  hd [] (split_go sep 0 cur s) = rev cur ++ before_first sep s.
Proof.
  revert cur; induction s as [|c s IH]; intros cur.
  - unfold before_first. cbn [split_go hd find].
    now rewrite startswith_nil, app_nil_r.
  - destruct (startswith sep (c :: s)) eqn:E.
    + rewrite split_go_match by assumption.
      unfold before_first. cbn [find]. rewrite E.
      cbn [hd firstn]. now rewrite app_nil_r.
    + rewrite split_go_no_match by assumption. rewrite IH.
      unfold before_first. cbn [find]. rewrite E.
      destruct (find sep s); simpl; now rewrite <- app_assoc.
Qed.

Lemma split_hd (s : str) : hd [] (split sep s) = before_first sep s.
Proof. apply split_go_hd. Qed.

End Split.

(** *** [rfind] and the last piece of [split] *)

Lemma rfind_app_some (sep a t : str) (i : nat) :
  rfind sep t = Some i -> rfind sep (a ++ t) = Some (List.length a + i)%nat.
Proof.
  intros H; induction a as [|x a IH]; simpl; [assumption|].
  now rewrite IH.
Qed.

Lemma rfind_app_none (sep a t : str) :
  rfind sep t = None ->
  (forall k, (k < List.length a)%nat ->
             startswith sep (skipn k (a ++ t)) = false) ->
  rfind sep (a ++ t) = None.
Proof.
  intros Ht; induction a as [|x a IH]; intros Hno; [assumption|].
  cbn [app rfind]. rewrite IH.
  - assert (H0 : (0 < List.length (x :: a))%nat) by (simpl; lia).
    apply Hno in H0. cbn [skipn app] in H0. now rewrite H0.
  - intros k Hk. apply (Hno (S k)). simpl; lia.
Qed.

Lemma head_unique_no_overlap (c : ascii) (tl t : str) (k : nat) :
  existsb (Ascii.eqb c) tl = false ->
  (k < List.length tl)%nat ->
  startswith (c :: tl) (skipn k (tl ++ t)) = false.
Proof.
  intros Hc Hk.
  rewrite skipn_app.
  destruct (skipn k tl) as [|d rest] eqn:E.
  - apply (f_equal (@List.length ascii)) in E.
    rewrite length_skipn in E. simpl in E. lia.
  - cbn [app startswith].
    assert (Hin : In d tl).
    { rewrite <- (firstn_skipn k tl), E. apply in_or_app. right. now left. }
    destruct (Ascii.eqb c d) eqn:Ecd; [|reflexivity].
    exfalso. apply Ascii.eqb_eq in Ecd; subst d.
    assert (existsb (Ascii.eqb c) tl = true).
    { apply existsb_exists. exists c. split; [assumption|apply Ascii.eqb_refl]. }
    congruence.
Qed.

Lemma rfind_after_match (sep t : str) :
  head_unique sep = true ->
  rfind sep (sep ++ t)
  = match rfind sep t with
    | Some i => Some (List.length sep + i)%nat
    | None => Some 0%nat
    end.
Proof.
  intros Hu. destruct (rfind sep t) as [i|] eqn:E.
  - now apply rfind_app_some.
  - destruct sep as [|c tl]; [discriminate|].
    simpl in Hu. apply negb_true_iff in Hu.
    change ((c :: tl) ++ t) with (c :: (tl ++ t)).
    cbn [rfind].
    rewrite rfind_app_none; [|assumption|].
    + change (c :: tl ++ t) with ((c :: tl) ++ t).
      now rewrite startswith_app.
    + intros k Hk. now apply head_unique_no_overlap.
Qed.

Lemma head_unique_not_nil (sep : str) : head_unique sep = true -> sep <> [].
Proof. destruct sep; [discriminate|discriminate]. Qed.

Lemma skipn_past {A} (a t : list A) (k : nat) :
  skipn (List.length a + k) (a ++ t) = skipn k t.
Proof. induction a as [|x a IH]; [reflexivity|exact IH]. Qed.

Lemma last_cons_not_nil {A} (x : A) (l : list A) (d : A) :
  l <> [] -> last (x :: l) d = last l d.
Proof. destruct l; [contradiction|reflexivity]. Qed.

(** The last piece is the text after the last occurrence. *)
Lemma split_go_last (sep : str) :
  head_unique sep = true ->
  forall (n : nat) (s cur : str),
    (List.length s <= n)%nat ->
    last (split_go sep 0 cur s) []
    = match rfind sep s with
      | Some i => skipn (i + List.length sep) s
      | None => rev cur ++ s
      end.
Proof.
  intros Hu. pose proof (head_unique_not_nil _ Hu) as Hne.
  induction n as [|n IH]; intros s cur Hn.
  - destruct s; [|simpl in Hn; lia].
    cbn [split_go last rfind]. now rewrite startswith_nil, app_nil_r.
  - destruct s as [|c s].
    + cbn [split_go last rfind]. now rewrite startswith_nil, app_nil_r.
    + destruct (startswith sep (c :: s)) eqn:E.
      * rewrite split_go_match by assumption.
        rewrite last_cons_not_nil by now apply split_go_not_nil.
        pose proof (startswith_length _ _ E) as Hlen.
        pose proof (sep_length_pos sep Hne) as Hpos.
        pose proof (startswith_split _ _ E) as Hs.
        set (t := skipn (List.length sep) (c :: s)) in *.
        rewrite IH.
        2:{ subst t. rewrite length_skipn. cbn [List.length] in *. lia. }
        clearbody t. rewrite Hs, rfind_after_match by assumption.
        destruct (rfind sep t) as [i|].
        -- rewrite <- Nat.add_assoc. symmetry. apply skipn_past.
        -- rewrite Nat.add_comm. symmetry. apply skipn_past.
      * rewrite split_go_no_match by assumption.
        rewrite IH by (simpl in Hn; lia).
        cbn [rfind]. rewrite E.
        destruct (rfind sep s) as [i|]; [reflexivity|].
        cbn [rev]. now rewrite <- app_assoc.
Qed.

Lemma split_last (sep s : str) :
  head_unique sep = true ->
  last (split sep s) [] = after_last sep s.
Proof.
  intros Hu. unfold split, after_last.
  now rewrite (split_go_last sep Hu (List.length s)) by lia.
Qed.

(** * Quiz parser *)

Lemma fold_parse_step (blocks : list str) (acc : list Question) :
  fold_left parse_step blocks acc
  = acc ++ map parse_block (filter accepted blocks).
Proof.
  revert acc; induction blocks as [|b blocks IH]; intros acc; simpl.
  - now rewrite app_nil_r.
  - rewrite IH. unfold parse_step.
    destruct (accepted b); simpl; [now rewrite <- app_assoc|reflexivity].
Qed.

Lemma slice_to_nonneg {A} (l : list A) (k : Z) :
  (0 <= k)%Z -> slice_to l k = firstn (Z.to_nat k) l.
Proof.
  intros Hk. unfold slice_to.
  destruct (k <? 0)%Z eqn:E; [|reflexivity].
  apply Z.ltb_lt in E. lia.
Qed.

Lemma firstn_min_length {A} (n : nat) (l : list A) :
  firstn n l = firstn (Nat.min (List.length l) n) l.
Proof.
  destruct (Nat.le_ge_cases n (List.length l)) as [H|H].
  - now rewrite Nat.min_r.
  - rewrite Nat.min_l by assumption.
    now rewrite firstn_all, firstn_all2.
Qed.

Lemma generate_content (query text : str) (k : Z) :
  generate_quiz_questions_with_rag query k (Content text)
  = slice_to (map parse_block (filter accepted (quiz_blocks text))) k.
Proof.
  unfold generate_quiz_questions_with_rag. now rewrite fold_parse_step.
Qed.

(** C6. Of the blocks of a completion text, the N that contain both markers
    are kept in their order and turned into questions, the others are
    dropped without any effect on the rest, and a limit [k] keeps exactly
    the first [min N k] of them. *)
Theorem generate_first_accepted_blocks (query text : str) (k : nat) :
  let kept := filter accepted (quiz_blocks text) in
  let N := List.length kept in
  generate_quiz_questions_with_rag query (Z.of_nat k) (Content text)
  = map parse_block (firstn (Nat.min N k) kept)
  /\ List.length
       (generate_quiz_questions_with_rag query (Z.of_nat k) (Content text))
     = Nat.min N k
  /\ (forall (before : list str) (b : str) (after : list str),
        quiz_blocks text = before ++ b :: after ->
        accepted b = false ->
        kept = filter accepted (before ++ after)).
Proof.
  intros kept N.
  assert (E : generate_quiz_questions_with_rag query (Z.of_nat k)
                (Content text)
              = map parse_block (firstn (Nat.min N k) kept)).
  { rewrite generate_content, slice_to_nonneg by lia.
    fold kept. rewrite Nat2Z.id, <- firstn_map.
    rewrite (firstn_min_length k), length_map. reflexivity. }
  split; [exact E|]. split.
  - rewrite E, length_map, length_firstn. subst N. lia.
  - intros before b after Hb Hrej. subst kept. rewrite Hb.
    rewrite !filter_app. cbn [filter]. now rewrite Hrej.
Qed.

Lemma generate_first_accepted_blocks_witness :
  List.length
    (generate_quiz_questions_with_rag [] 3 (Content text_four_blocks))
  = 3%nat
  /\ map correct_answer
       (generate_quiz_questions_with_rag [] 3 (Content text_four_blocks))
     = [lit "a"; lit "B"; lit "c"]
  /\ filter accepted (quiz_blocks text_four_blocks)
     = filter accepted
         ([block_sample "Question: one" " a" " e1"]
          ++ [block_sample "Question: two" " B" " e2";
              block_sample "Question: three" " c " " e3";
              block_sample "Question: four" " D" " e4"]).
Proof.
  destruct (generate_first_accepted_blocks [] text_four_blocks 3)
    as (Hq & Hn & Hdrop).
  split; [|split].
  - change 3%Z with (Z.of_nat 3). rewrite Hn. vm_compute. reflexivity.
  - change 3%Z with (Z.of_nat 3). rewrite Hq. vm_compute. reflexivity.
  - apply (Hdrop _ (lit "no markers here")); reflexivity.
Defined.

(** A negative limit, which [chat_response] never passes, follows Python's
    slice and drops questions from the end. *)
Lemma generate_negative_limit :
  List.length
    (generate_quiz_questions_with_rag [] (-1) (Content text_four_blocks))
  = 3%nat.
Proof. reflexivity. Qed.

Lemma marker_answer_head_unique : head_unique marker_answer = true.
Proof. reflexivity. Qed.

Lemma marker_explanation_head_unique : head_unique marker_explanation = true.
Proof. reflexivity. Qed.

Lemma find_app_skip (sep a t : str) (i : nat) :
  find sep (a ++ t) = Some (List.length a + i)%nat -> find sep t = Some i.
Proof.
  induction a as [|x a IH]; intros H; [exact H|].
  cbn [app find] in H.
  destruct (startswith sep (x :: a ++ t)); [discriminate|].
  destruct (find sep (a ++ t)) as [j|] eqn:E; [|discriminate].
  simpl in H. apply IH. congruence.
Qed.

Lemma contains_find (sep s : str) :
  contains sep s = true -> find sep s <> None.
Proof.
  induction s as [|x s IH]; cbn [contains find]; intros H.
  - rewrite orb_false_r in H. now rewrite H.
  - destruct (startswith sep (x :: s)); [discriminate|].
    cbn [orb] in H. destruct (find sep s); [discriminate|].
    now elim (IH H).
Qed.

Lemma contains_rfind (sep s : str) :
  contains sep s = true -> rfind sep s <> None.
Proof.
  induction s as [|x s IH]; cbn [contains rfind]; intros H.
  - rewrite orb_false_r in H. now rewrite H.
  - destruct (rfind sep s); [discriminate|].
    destruct (startswith sep (x :: s)); [discriminate|].
    cbn [orb] in H. now elim (IH H).
Qed.

(** The fields of [parse_block], read by position instead of by [split]. *)
Lemma parse_block_by_position (b : str) :
  parse_block b
  = {| question_text := strip (before_first marker_answer b);
       options := [lit "A"; lit "B"; lit "C"; lit "D"];
       correct_answer :=
         strip (before_first marker_explanation
                  (after_last marker_answer b));
       explanation := strip (after_last marker_explanation b) |}.
Proof.
  unfold parse_block.
  rewrite !split_hd by (apply head_unique_not_nil; reflexivity).
  rewrite !split_last by reflexivity.
  reflexivity.
Qed.

(** C7. In an accepted block both markers are found; the question text is
    the trimmed text before the first "Correct Answer:", the correct answer
    is the trimmed text after the last "Correct Answer:" up to the first
    "Explanation:" that follows it, in the letter case of the block, the
    explanation is the trimmed text after the last "Explanation:", and the
    options are the fixed labels A, B, C, D. *)
Theorem parse_block_fields (b : str) :
  accepted b = true ->
  find marker_answer b <> None
  /\ rfind marker_answer b <> None
  /\ rfind marker_explanation b <> None
  /\ question_text (parse_block b) = strip (before_first marker_answer b)
  /\ correct_answer (parse_block b)
     = strip (before_first marker_explanation (after_last marker_answer b))
  /\ explanation (parse_block b) = strip (after_last marker_explanation b)
  /\ options (parse_block b) = [lit "A"; lit "B"; lit "C"; lit "D"].
Proof.
  intros Ha. unfold accepted in Ha. apply andb_true_iff in Ha as [Hca Hex].
  rewrite parse_block_by_position.
  cbn [question_text correct_answer explanation options].
  repeat split.
  - now apply contains_find.
  - now apply contains_rfind.
  - now apply contains_rfind.
Qed.

Lemma parse_block_fields_witness :
  accepted (block_sample "Question: one" " c " " why") = true
  /\ question_text (parse_block (block_sample "Question: one" " c " " why"))
     = lit "Question: one"
  /\ correct_answer (parse_block (block_sample "Question: one" " c " " why"))
     = lit "c".
Proof.
  split; [reflexivity|].
  destruct (parse_block_fields (block_sample "Question: one" " c " " why")
              eq_refl) as (_ & _ & _ & Hq & Hc & _).
  split.
  - rewrite Hq. vm_compute. reflexivity.
  - rewrite Hc. vm_compute. reflexivity.
Defined.

(** A block with one marker of each kind, in order, splits into its three
    parts. *)
Lemma parse_block_well_formed (p c e : str) :
  let b := p ++ marker_answer ++ c ++ marker_explanation ++ e in
  find marker_answer b = Some (List.length p) ->
  rfind marker_answer b = Some (List.length p) ->
  find marker_explanation b
  = Some (List.length (p ++ marker_answer ++ c)) ->
  rfind marker_explanation b
  = Some (List.length (p ++ marker_answer ++ c)) ->
  parse_block b
  = {| question_text := strip p;
       options := [lit "A"; lit "B"; lit "C"; lit "D"];
       correct_answer := strip c;
       explanation := strip e |}.
Proof.
  intros b Hf Hr Hfe Hre.
  pose proof (parse_block_by_position b) as Hb.
  assert (Eb : before_first marker_answer b = p).
  { unfold before_first. rewrite Hf. unfold b.
    now rewrite firstn_app, Nat.sub_diag, firstn_all, app_nil_r. }
  assert (Ea : after_last marker_answer b = c ++ marker_explanation ++ e).
  { unfold after_last. rewrite Hr. unfold b.
    replace (p ++ marker_answer ++ c ++ marker_explanation ++ e)
      with ((p ++ marker_answer) ++ c ++ marker_explanation ++ e)
      by now rewrite <- !app_assoc.
    rewrite <- (length_app p marker_answer).
    rewrite <- (Nat.add_0_r (List.length (p ++ marker_answer))).
    now rewrite skipn_past. }
  assert (Ec : before_first marker_explanation (c ++ marker_explanation ++ e)
               = c).
  { unfold before_first.
    assert (Hfc : find marker_explanation (c ++ marker_explanation ++ e)
                  = Some (List.length c)).
    { apply (find_app_skip marker_explanation (p ++ marker_answer)).
      rewrite <- Nat.add_comm, Nat.add_comm, <- length_app.
      rewrite <- !app_assoc. exact Hfe. }
    rewrite Hfc.
    now rewrite firstn_app, Nat.sub_diag, firstn_all, app_nil_r. }
  assert (Ee : after_last marker_explanation b = e).
  { unfold after_last. rewrite Hre. unfold b.
    replace (p ++ marker_answer ++ c ++ marker_explanation ++ e)
      with ((p ++ marker_answer ++ c ++ marker_explanation) ++ e)
      by now rewrite <- !app_assoc.
    rewrite <- length_app, <- app_assoc, <- app_assoc.
    rewrite !app_assoc.
    rewrite <- (Nat.add_0_r (List.length _)).
    now rewrite skipn_past. }
  rewrite Hb, Eb, Ea, Ec, Ee. reflexivity.
Qed.

(** The parser stores the correct answer in the case of the text: it does
    not uppercase it. *)
Lemma parse_block_not_uppercased :
  ~ (forall b : str,
        accepted b = true ->
        correct_answer (parse_block b)
        = upper (strip (before_first marker_explanation
                          (after_last marker_answer b)))).
Proof.
  intros H.
  specialize (H (block_sample "Question: one" " c " " why") eq_refl).
  vm_compute in H. discriminate H.
Qed.

Lemma slice_to_nil {A} (k : Z) : slice_to (@nil A) k = [].
Proof. unfold slice_to. destruct (k <? 0)%Z; apply firstn_nil. Qed.

(** * Handlers *)

Lemma quiz_count_tokens (query : str) (st : Session)
  (t0 t1 t2 : str) (rest : list str) :
  split (lit " ") query = t0 :: t1 :: t2 :: rest ->
  quiz_count query st
  = (if isdigit t2
     then match int t2 with
          | Some n => inr n
          | None => inl ValueError
          end
     else inr 5%Z, st).
Proof.
  intros Hs. unfold quiz_count, bind, subscript. rewrite Hs.
  change (py_index (t0 :: t1 :: t2 :: rest) 2) with (Some t2).
  unfold ret, raise. destruct (isdigit t2); [destruct (int t2)|]; reflexivity.
Qed.

Lemma int_within_limit (s : str) :
  (List.length s <= max_str_digits)%nat -> int s = Some (decimal_value s).
Proof.
  intros H. unfold int.
  destruct (max_str_digits <? List.length s)%nat eqn:E; [|reflexivity].
  apply Nat.ltb_lt in E. lia.
Qed.

Lemma int_beyond_limit (s : str) :
  (max_str_digits < List.length s)%nat -> int s = None.
Proof.
  intros H. unfold int. apply Nat.ltb_lt in H. now rewrite H.
Qed.

(** [quiz_count] writes no global. *)
Lemma quiz_count_state (query : str) (st st' : Session) (r : exn + Z) :
  quiz_count query st = (r, st') -> st' = st.
Proof.
  unfold quiz_count, bind, subscript, raise, ret.
  destruct (py_index _ _); [destruct (isdigit _); [destruct (int _)|]|];
    intros H; now inversion H.
Qed.

(** The quiz branch of [chat_response] once the count is read. *)
Lemma chat_response_quiz
  (history : History) (query : str) (c : Completion) (st : Session)
  (count : Z) :
  contains (lit "quiz") (lower query) = true ->
  quiz_count query st = (inr count, st) ->
  let data := generate_quiz_questions_with_rag query count c in
  chat_response history query c st
  = (inr match data with
         | q0 :: _ =>
             (history ++ [(query, lit "Quiz started!")],
              question_text q0, options q0, [], true, false)
         | [] =>
             (history ++ [(query, lit "Failed to generate quiz.")],
              lit "No questions available.", [], [], false, false)
         end,
     {| quiz_data := data;
        current_question := 0%Z;
        answer_submitted := false |}).
Proof.
  intros Hq Hc data. unfold chat_response. rewrite Hq.
  unfold bind at 1. rewrite Hc.
  unfold bind, read, ret, set_quiz_data, set_current_question,
    set_answer_submitted.
  cbn [quiz_data current_question answer_submitted app]. fold data.
  destruct data; reflexivity.
Qed.

Lemma decimal_value_snoc (s : str) (d : ascii) :
  decimal_value (s ++ [d]) = (10 * decimal_value s + digit_val d)%Z.
Proof. unfold decimal_value. now rewrite fold_left_app. Qed.

Lemma digit_val_range (c : ascii) :
  isdigit_char c = true -> (0 <= digit_val c <= 9)%Z.
Proof.
  unfold isdigit_char, digit_val. intros H.
  apply andb_true_iff in H as [H1 H2].
  apply N.leb_le in H1, H2. lia.
Qed.

Lemma decimal_value_nonneg (s : str) :
  forallb isdigit_char s = true -> (0 <= decimal_value s)%Z.
Proof.
  induction s as [|d s IH] using rev_ind; intros H;
    [unfold decimal_value; simpl; lia|].
  rewrite forallb_app in H. apply andb_true_iff in H as [Hs Hd].
  cbn [forallb] in Hd. rewrite andb_true_r in Hd.
  rewrite decimal_value_snoc.
  pose proof (digit_val_range d Hd). specialize (IH Hs). lia.
Qed.

(** The count handed to the generation is never negative. *)
Lemma quiz_count_nonneg (query : str) (st st' : Session) (n : Z) :
  quiz_count query st = (inr n, st') -> (0 <= n)%Z.
Proof.
  unfold quiz_count, bind, subscript, raise, ret.
  destruct (py_index _ _) as [token|]; [|discriminate].
  destruct (isdigit token) eqn:E.
  - unfold int. destruct (max_str_digits <? List.length token)%nat;
      intros H; inversion H; subst.
    apply decimal_value_nonneg. destruct token; [discriminate|exact E].
  - intros H; inversion H; subst. lia.
Qed.

(** C1. A query classified as a quiz request that has at least three tokens
    between single spaces, the third of them ASCII text and, when it is a
    digit string, of at most 4300 digits, starts a quiz whose question
    count is the decimal value of that token when it is a digit string and
    5 otherwise; the count is what the generation receives, and the
    session restarts at position 0. *)
Theorem quiz_count_third_token
  (history : History) (query : str) (c : Completion) (st : Session)
  (t0 t1 t2 : str) (rest : list str) :
  contains (lit "quiz") (lower query) = true ->
  split (lit " ") query = t0 :: t1 :: t2 :: rest ->
  is_ascii t2 = true ->
  (isdigit t2 = true -> (List.length t2 <= max_str_digits)%nat) ->
  let count := if isdigit t2 then decimal_value t2 else 5%Z in
  quiz_count query st = (inr count, st)
  /\ snd (chat_response history query c st)
     = {| quiz_data := generate_quiz_questions_with_rag query count c;
          current_question := 0%Z;
          answer_submitted := false |}.
Proof.
  intros Hq Hs _ Hlen count.
  assert (Hc : quiz_count query st = (inr count, st)).
  { rewrite (quiz_count_tokens query st t0 t1 t2 rest Hs). subst count.
    destruct (isdigit t2); [|reflexivity].
    now rewrite (int_within_limit t2 (Hlen eq_refl)). }
  split; [exact Hc|].
  now rewrite (chat_response_quiz history query c st count Hq Hc).
Qed.

Lemma quiz_count_third_token_witness :
  quiz_count (lit "quiz me 12 times") initial_session
  = (inr 12%Z, initial_session)
  /\ quiz_count query_three initial_session = (inr 5%Z, initial_session).
Proof.
  split.
  - exact (proj1 (quiz_count_third_token [] (lit "quiz me 12 times")
                    (Failed []) initial_session
                    (lit "quiz") (lit "me") (lit "12") [lit "times"]
                    eq_refl eq_refl eq_refl
                    ltac:(intros _; unfold max_str_digits; cbn; lia))).
  - exact (proj1 (quiz_count_third_token [] query_three
                    (Failed []) initial_session
                    (lit "give") (lit "me") (lit "a")
                    [lit "quiz"; lit "with"; lit "3"; lit "questions"]
                    eq_refl eq_refl eq_refl
                    ltac:(intros H; discriminate H))).
Defined.

(** The query of the specification's example starts a quiz of 5 questions,
    not 3: its third token is "a". *)
Lemma quiz_count_example_not_three :
  ~ (forall (c : Completion) (st : Session),
        snd (chat_response [] query_three c st)
        = {| quiz_data := generate_quiz_questions_with_rag query_three 3 c;
             current_question := 0%Z;
             answer_submitted := false |}).
Proof.
  intros H.
  specialize (H (Content text_four_blocks) initial_session).
  apply (f_equal (fun st => List.length (quiz_data st))) in H.
  vm_compute in H. discriminate H.
Qed.

(** ** Generation without an accepted block *)

(** C2. When no block of the completion text contains both markers the
    generation returns the empty list, which [chat_response] reports as a
    failed quiz; the one-element sentinel list is what a failed completion
    call returns. *)
Theorem generate_without_accepted_block
  (history : History) (query text : str) (k : Z) (st : Session) :
  filter accepted (quiz_blocks text) = [] ->
  generate_quiz_questions_with_rag query k (Content text) = []
  /\ (forall count : Z,
        contains (lit "quiz") (lower query) = true ->
        quiz_count query st = (inr count, st) ->
        chat_response history query (Content text) st
        = (inr (history ++ [(query, lit "Failed to generate quiz.")],
                lit "No questions available.", [], [], false, false),
           {| quiz_data := [];
              current_question := 0%Z;
              answer_submitted := false |}))
  /\ (forall e : str,
        generate_quiz_questions_with_rag query k (Failed e)
        = [{| question_text := lit "Error: Failed to generate quiz.";
              options := [];
              correct_answer := lit "N/A";
              explanation := lit "No explanation available." |}]).
Proof.
  intros Hnone.
  assert (Hgen : forall n,
             generate_quiz_questions_with_rag query n (Content text) = []).
  { intros n. rewrite generate_content, Hnone. apply slice_to_nil. }
  split; [apply Hgen|]. split.
  - intros count Hq Hc.
    rewrite (chat_response_quiz history query (Content text) st count Hq Hc).
    now rewrite Hgen.
  - reflexivity.
Qed.

Lemma generate_without_accepted_block_witness :
  filter accepted (quiz_blocks (lit "I cannot write a quiz.")) = []
  /\ generate_quiz_questions_with_rag
       (lit "please quiz me") 5 (Content (lit "I cannot write a quiz.")) = [].
Proof.
  split; [reflexivity|].
  exact (proj1 (generate_without_accepted_block
                  [] (lit "please quiz me") (lit "I cannot write a quiz.")
                  5 initial_session eq_refl)).
Defined.

(** A completion text without any accepted block gives the empty list, not
    the sentinel question. *)
Lemma generate_without_block_not_sentinel :
  ~ (forall (query text : str) (k : Z),
        filter accepted (quiz_blocks text) = [] ->
        generate_quiz_questions_with_rag query k (Content text) = [sentinel]).
Proof.
  intros H.
  specialize (H (lit "please quiz me") (lit "I cannot write a quiz.") 5%Z
                eq_refl).
  vm_compute in H. discriminate H.
Qed.

(** ** [strip] and the first character *)

Lemma lstrip_head (s : str) (c : ascii) (r : str) :
  lstrip s = c :: r -> isspace c = false.
Proof.
  induction s as [|x s IH]; simpl; [discriminate|].
  destruct (isspace x) eqn:E; [exact IH|].
  intros H; injection H as -> _. exact E.
Qed.

Lemma lstrip_snoc (l : str) (c : ascii) :
  isspace c = false -> lstrip (l ++ [c]) = lstrip l ++ [c].
Proof.
  intros Hc; induction l as [|x l IH]; simpl.
  - now rewrite Hc.
  - destruct (isspace x); [exact IH|reflexivity].
Qed.

Lemma strip_head (s : str) (c : ascii) (r : str) :
  lstrip s = c :: r -> exists r', strip s = c :: r'.
Proof.
  intros H. pose proof (lstrip_head s c r H) as Hc.
  unfold strip, rstrip. rewrite H. cbn [rev].
  rewrite lstrip_snoc by assumption.
  rewrite rev_app_distr. cbn [rev app]. eauto.
Qed.

Lemma upper_char_idem (c : ascii) : upper_char (upper_char c) = upper_char c.
Proof. destruct c as [[] [] [] [] [] [] [] []]; reflexivity. Qed.

Lemma upper_char_lower (c : ascii) : upper_char (lower_char c) = upper_char c.
Proof. destruct c as [[] [] [] [] [] [] [] []]; reflexivity. Qed.

Lemma isspace_upper_char (c : ascii) : isspace (upper_char c) = isspace c.
Proof. destruct c as [[] [] [] [] [] [] [] []]; reflexivity. Qed.

Lemma isspace_lower_char (c : ascii) : isspace (lower_char c) = isspace c.
Proof. destruct c as [[] [] [] [] [] [] [] []]; reflexivity. Qed.

Lemma lstrip_nonspace (c : ascii) (tail : str) :
  isspace c = false -> lstrip (c :: tail) = c :: tail.
Proof. intros H. cbn [lstrip]. now rewrite H. Qed.

Lemma is_correct_unfold (user_answer correct : str) (st : Session) :
  is_correct user_answer correct st
  = match strip user_answer with
    | [] => (inl IndexError, st)
    | c :: _ => (inr (str_eqb [upper_char c] (upper (strip correct))), st)
    end.
Proof.
  unfold is_correct, bind, subscript.
  destruct (strip user_answer); reflexivity.
Qed.

(** ** [submit_answer] *)

Lemma submit_answer_no_question (user_answer : str) (st : Session) :
  (questions_count st <= current_question st)%Z ->
  submit_answer user_answer st = (inr (msg_no_more, false, false), st).
Proof.
  intros H. unfold questions_count in H.
  unfold submit_answer, bind, read, ret.
  destruct (current_question st <? _)%Z eqn:E; [|reflexivity].
  apply Z.ltb_lt in E. lia.
Qed.

Lemma submit_answer_evaluated
  (user_answer : str) (st : Session) (q : Question) (ok : bool) :
  (current_question st < questions_count st)%Z ->
  py_index (quiz_data st) (current_question st) = Some q ->
  is_correct user_answer (correct_answer q) st = (inr ok, st) ->
  submit_answer user_answer st
  = (inr (feedback_for q ok, false, true), mark_submitted st).
Proof.
  intros Hlt Hq Hok. unfold questions_count in Hlt.
  apply Z.ltb_lt in Hlt.
  unfold submit_answer. unfold bind at 1 2, read. rewrite Hlt.
  unfold bind at 1, subscript. rewrite Hq. unfold ret at 1.
  unfold bind at 1. rewrite Hok. reflexivity.
Qed.

(** Every run of [submit_answer] is of one of three kinds. *)
Lemma submit_answer_cases (user_answer : str) (st : Session) :
  ((questions_count st <= current_question st)%Z
   /\ submit_answer user_answer st = (inr (msg_no_more, false, false), st))
  \/ ((current_question st < questions_count st)%Z
      /\ submit_answer user_answer st = (inl IndexError, st))
  \/ (exists (q : Question) (ok : bool),
         (current_question st < questions_count st)%Z
         /\ py_index (quiz_data st) (current_question st) = Some q
         /\ is_correct user_answer (correct_answer q) st = (inr ok, st)
         /\ submit_answer user_answer st
            = (inr (feedback_for q ok, false, true), mark_submitted st)).
Proof.
  destruct (Z.le_gt_cases (questions_count st) (current_question st))
    as [Hge|Hlt].
  - left. split; [assumption|now apply submit_answer_no_question].
  - right.
    destruct (py_index (quiz_data st) (current_question st)) as [q|] eqn:Hq.
    + destruct (strip user_answer) as [|c r] eqn:Hs.
      * left. split; [assumption|].
        unfold questions_count in Hlt. apply Z.ltb_lt in Hlt.
        unfold submit_answer. unfold bind at 1 2, read. rewrite Hlt.
        unfold bind at 1, subscript. rewrite Hq. unfold ret at 1.
        unfold bind at 1. rewrite is_correct_unfold, Hs. reflexivity.
      * right. exists q, (str_eqb [upper_char c] (upper (strip (correct_answer q)))).
        assert (Hok : is_correct user_answer (correct_answer q) st
                      = (inr (str_eqb [upper_char c]
                                (upper (strip (correct_answer q)))), st))
          by now rewrite is_correct_unfold, Hs.
        repeat split; try assumption.
        now apply submit_answer_evaluated.
    + left. split; [assumption|].
      unfold questions_count in Hlt. apply Z.ltb_lt in Hlt.
      unfold submit_answer. unfold bind at 1 2, read. rewrite Hlt.
      unfold bind at 1, subscript. rewrite Hq. reflexivity.
Qed.

(** ** Uncaught exceptions *)

Lemma py_index_short {A} (l : list A) :
  (List.length l < 3)%nat -> py_index l 2 = None.
Proof.
  intros H. unfold py_index. change (2 <? 0)%Z with false. cbv iota.
  apply nth_error_None. change (Z.to_nat 2) with 2%nat. lia.
Qed.

(** A quiz request of fewer than three tokens raises before any global is
    written. *)
Lemma chat_response_short_query
  (history : History) (query : str) (c : Completion) (st : Session) :
  contains (lit "quiz") (lower query) = true ->
  (List.length (split (lit " ") query) < 3)%nat ->
  chat_response history query c st = (inl IndexError, st).
Proof.
  intros Hq Hn. unfold chat_response. rewrite Hq.
  unfold bind at 1. unfold quiz_count, bind, subscript.
  now rewrite (py_index_short _ Hn).
Qed.

(** An answer with nothing but white space raises when a question is
    active. *)
Lemma submit_answer_blank
  (user_answer : str) (st : Session) (q : Question) :
  (current_question st < questions_count st)%Z ->
  py_index (quiz_data st) (current_question st) = Some q ->
  strip user_answer = [] ->
  submit_answer user_answer st = (inl IndexError, st).
Proof.
  intros Hlt Hq Hs.
  destruct (submit_answer_cases user_answer st)
    as [[Hge _]|[[_ E]|(q' & ok & _ & _ & Hok & _)]].
  - lia.
  - exact E.
  - rewrite is_correct_unfold, Hs in Hok. discriminate Hok.
Qed.

(** C3. A quiz query of fewer than three tokens and an answer that is empty
    once trimmed both end the handler with an uncaught [IndexError]. *)
Theorem handlers_raise_index_error :
  (forall (history : History) (c : Completion) (st : Session),
      chat_response history (lit "quiz") c st = (inl IndexError, st))
  /\ (forall (history : History) (c : Completion) (st : Session),
        chat_response history (lit "quiz please") c st = (inl IndexError, st))
  /\ (forall submitted : bool,
        submit_answer [] (session_one submitted)
        = (inl IndexError, session_one submitted))
  /\ (forall submitted : bool,
        submit_answer (lit "  ") (session_one submitted)
        = (inl IndexError, session_one submitted)).
Proof.
  repeat split; intros; reflexivity.
Qed.

(** ** Answers *)

(** C4. With the position at or past the end of the question list,
    [submit_answer] answers "No more questions!" and leaves the session as
    it is; the session changes only in a run that evaluates an answer, and
    then only by setting the submitted flag.  The handler does not look at
    the submitted flag. *)
Theorem submit_answer_changes_only_when_evaluated
  (user_answer : str) (st : Session) :
  ((questions_count st <= current_question st)%Z ->
   submit_answer user_answer st = (inr (msg_no_more, false, false), st))
  /\ (snd (submit_answer user_answer st) <> st ->
      exists (q : Question) (ok : bool),
        (current_question st < questions_count st)%Z
        /\ py_index (quiz_data st) (current_question st) = Some q
        /\ is_correct user_answer (correct_answer q) st = (inr ok, st)
        /\ submit_answer user_answer st
           = (inr (feedback_for q ok, false, true), mark_submitted st)).
Proof.
  split; [apply submit_answer_no_question|].
  intros Hch.
  destruct (submit_answer_cases user_answer st)
    as [[_ E]|[[_ E]|(q & ok & H)]].
  - rewrite E in Hch. now elim Hch.
  - rewrite E in Hch. now elim Hch.
  - exists q, ok. exact H.
Qed.

Lemma submit_answer_changes_only_when_evaluated_witness :
  submit_answer (lit "B") initial_session
  = (inr (msg_no_more, false, false), initial_session)
  /\ submit_answer (lit "B") (session_one false)
     = (inr (msg_correct, false, true), session_one true).
Proof.
  split.
  - exact (proj1 (submit_answer_changes_only_when_evaluated
                    (lit "B") initial_session) ltac:(vm_compute; discriminate)).
  - destruct (proj2 (submit_answer_changes_only_when_evaluated
                       (lit "B") (session_one false))
                ltac:(vm_compute; discriminate))
      as (q & ok & _ & Hq & Hok & E).
    vm_compute in Hq. injection Hq as <-.
    vm_compute in Hok. injection Hok as <-.
    exact E.
Defined.

(** A question that was already submitted is evaluated again: the answer is
    not refused as "no active question". *)
Lemma submit_answer_ignores_submitted_flag :
  ~ (forall (user_answer : str) (st : Session),
        awaiting_answer st = false ->
        submit_answer user_answer st = (inr (msg_no_more, false, false), st)).
Proof.
  intros H.
  specialize (H (lit "B") (session_one true) eq_refl).
  vm_compute in H. discriminate H.
Qed.

(** C8. For ASCII answers and an ASCII stored correct answer,
    [submit_answer] compares the uppercased first character of the trimmed
    answer with the trimmed, uppercased correct answer; two answers whose
    first characters after leading white space agree up to letter case get
    the same result, whatever ASCII text follows those characters: the
    uppercase and the lowercase form of the letter, each followed by any
    ASCII text, give the result of the answer itself. *)
Theorem submit_answer_first_letter
  (user_answer : str) (c : ascii) (rest : str) (st : Session) (q : Question) :
  (current_question st < questions_count st)%Z ->
  py_index (quiz_data st) (current_question st) = Some q ->
  is_ascii user_answer = true ->
  is_ascii (correct_answer q) = true ->
  lstrip user_answer = c :: rest ->
  let ok := str_eqb [upper_char c] (upper (strip (correct_answer q))) in
  is_correct user_answer (correct_answer q) st = (inr ok, st)
  /\ submit_answer user_answer st
     = (inr (feedback_for q ok, false, true), mark_submitted st)
  /\ (forall (other : str) (c' : ascii) (rest' : str),
        is_ascii other = true ->
        lstrip other = c' :: rest' ->
        upper_char c' = upper_char c ->
        submit_answer other st = submit_answer user_answer st)
  /\ (forall tail : str,
        is_ascii tail = true ->
        submit_answer (upper_char c :: tail) st = submit_answer user_answer st
        /\ submit_answer (lower_char c :: tail) st
           = submit_answer user_answer st).
Proof.
  intros Hlt Hq _ _ Hs ok.
  assert (Hone : forall (a : str) (x : ascii) (r : str),
             lstrip a = x :: r ->
             is_correct a (correct_answer q) st
             = (inr (str_eqb [upper_char x]
                       (upper (strip (correct_answer q)))), st)).
  { intros a x r Ha. destruct (strip_head a x r Ha) as [r' Hr'].
    now rewrite is_correct_unfold, Hr'. }
  assert (Hsame : forall (other : str) (c' : ascii) (rest' : str),
             lstrip other = c' :: rest' ->
             upper_char c' = upper_char c ->
             submit_answer other st = submit_answer user_answer st).
  { intros other c' rest' Ho Hc.
    rewrite (submit_answer_evaluated user_answer st q ok Hlt Hq
               (Hone user_answer c rest Hs)).
    apply submit_answer_evaluated; try assumption.
    rewrite (Hone other c' rest' Ho), Hc. reflexivity. }
  pose proof (lstrip_head user_answer c rest Hs) as Hc.
  split; [now apply (Hone user_answer c rest)|]. split; [|split].
  - apply submit_answer_evaluated; try assumption.
    now apply (Hone user_answer c rest).
  - intros other c' rest' _. apply Hsame.
  - intros tail _. split.
    + apply (Hsame _ (upper_char c) tail).
      * apply lstrip_nonspace. now rewrite isspace_upper_char.
      * apply upper_char_idem.
    + apply (Hsame _ (lower_char c) tail).
      * apply lstrip_nonspace. now rewrite isspace_lower_char.
      * apply upper_char_lower.
Qed.

Lemma submit_answer_first_letter_witness :
  submit_answer (lit "b) option text") (session_one false)
  = (inr (msg_correct, false, true), session_one true)
  /\ submit_answer (lit "B") (session_one false)
     = submit_answer (lit "b) option text") (session_one false).
Proof.
  destruct (submit_answer_first_letter
              (lit "b) option text") "b"%char (lit ") option text")
              (session_one false) q_sample
              ltac:(vm_compute; reflexivity) eq_refl eq_refl eq_refl eq_refl)
    as (_ & E & Hsame & _).
  split.
  - exact E.
  - exact (Hsame (lit "B") "B"%char [] eq_refl eq_refl eq_refl).
Defined.

(** The comparison reads the first character of the trimmed answer, not of
    the answer as given, and there is no result for an empty answer. *)
Lemma is_correct_not_first_char_as_given :
  ~ (forall (selected_label correct_label : str) (st : Session),
        exists b : bool,
          first_char_matches selected_label correct_label = Some b
          /\ is_correct selected_label correct_label st = (inr b, st)).
Proof.
  intros H.
  destruct (H (lit " b") (lit "B") initial_session) as (b & Hspec & Hcode).
  vm_compute in Hspec. injection Hspec as <-.
  vm_compute in Hcode. discriminate Hcode.
Qed.

(** ** [next_question] *)

Lemma next_question_stays (st : Session) :
  answer_submitted st && (current_question st <? questions_count st - 1)%Z
  = false ->
  next_question st = (inr (closing_result st), st).
Proof.
  unfold questions_count. intros H.
  unfold next_question, closing_result, questions_count, bind, read, ret.
  rewrite H.
  destruct (Z.of_nat (List.length (quiz_data st)) =? 1)%Z; reflexivity.
Qed.

Lemma next_question_moves (st : Session) :
  answer_submitted st = true ->
  (current_question st < questions_count st - 1)%Z ->
  quiz_data (snd (next_question st)) = quiz_data st
  /\ current_question (snd (next_question st)) = (current_question st + 1)%Z.
Proof.
  unfold questions_count. intros Hs Hlt. apply Z.ltb_lt in Hlt.
  unfold next_question, bind, read, ret, subscript, raise,
    set_current_question, set_answer_submitted.
  rewrite Hs, Hlt. cbn [andb quiz_data current_question answer_submitted].
  destruct (py_index (quiz_data st) (current_question st + 1)); split;
    reflexivity.
Qed.

(** C5. While the current question has not been submitted, [next_question]
    leaves the session as it is, position included, and returns the closing
    result of a finished quiz ("Quiz finished!"), not a message of its own
    for this case. *)
Theorem next_question_before_submit (st : Session) :
  answer_submitted st = false ->
  next_question st = (inr (closing_result st), st)
  /\ current_question (snd (next_question st)) = current_question st
  /\ closing_result st
     = (if (questions_count st =? 1)%Z
        then lit "No more questions available!"
        else lit "Quiz completed!",
        [], lit "Quiz finished!", false, false).
Proof.
  intros Hs.
  assert (E : next_question st = (inr (closing_result st), st))
    by (apply next_question_stays; now rewrite Hs).
  split; [exact E|]. split; [now rewrite E|].
  unfold closing_result. destruct (questions_count st =? 1)%Z; reflexivity.
Qed.

Lemma next_question_before_submit_witness :
  next_question (session_two 0 false)
  = (inr (lit "Quiz completed!", [], lit "Quiz finished!", false, false),
     session_two 0 false).
Proof.
  exact (proj1 (next_question_before_submit (session_two 0 false) eq_refl)).
Defined.

(** Before a submission the result of [next_question] is the closing
    result; nothing in it says that the user cannot advance yet. *)
Lemma next_question_no_cannot_advance_report :
  ~ (forall st : Session,
        answer_submitted st = false ->
        exists out,
          next_question st = (inr out, st)
          /\ reports_cannot_advance out = true).
Proof.
  intros H.
  destruct (H (session_two 0 false) eq_refl) as (out & E & R).
  vm_compute in E. injection E as <-.
  vm_compute in R. discriminate R.
Qed.

(** C9. After the last question has been submitted, [next_question]
    returns the closing result (no next question, no answer choices,
    "Quiz finished!", both buttons disabled) and keeps the position; any
    number of further calls does the same. *)
Theorem next_question_at_last (st : Session) :
  answer_submitted st = true ->
  current_question st = (questions_count st - 1)%Z ->
  next_question st
  = (inr (if (questions_count st =? 1)%Z
          then lit "No more questions available!"
          else lit "Quiz completed!",
          [], lit "Quiz finished!", false, false), st)
  /\ current_question (snd (next_question st)) = current_question st
  /\ (forall n : nat, Nat.iter n (handle NextQuestion) st = st).
Proof.
  intros Hs Hp.
  assert (E : next_question st = (inr (closing_result st), st)).
  { apply next_question_stays. rewrite Hp, Z.ltb_irrefl. apply andb_false_r. }
  split; [|split].
  - rewrite E. unfold closing_result.
    destruct (questions_count st =? 1)%Z; reflexivity.
  - now rewrite E.
  - induction n as [|n IH]; [reflexivity|].
    change (Nat.iter (S n) (handle NextQuestion) st)
      with (handle NextQuestion (Nat.iter n (handle NextQuestion) st)).
    rewrite IH. cbn [handle]. now rewrite E.
Qed.

Lemma next_question_at_last_witness :
  next_question (session_one true)
  = (inr (lit "No more questions available!", [], lit "Quiz finished!",
          false, false), session_one true)
  /\ next_question (session_two 1 true)
     = (inr (lit "Quiz completed!", [], lit "Quiz finished!", false, false),
        session_two 1 true).
Proof.
  split.
  - exact (proj1 (next_question_at_last (session_one true) eq_refl eq_refl)).
  - exact (proj1 (next_question_at_last (session_two 1 true)
                    eq_refl eq_refl)).
Defined.

(** ** Reachable sessions *)

Lemma chat_response_state
  (history : History) (query : str) (c : Completion) (st : Session) :
  snd (chat_response history query c st) = st
  \/ (contains (lit "quiz") (lower query) = true
      /\ current_question (snd (chat_response history query c st)) = 0%Z
      /\ exists v, fst (chat_response history query c st) = inr v).
Proof.
  destruct (contains (lit "quiz") (lower query)) eqn:Hq.
  - destruct (quiz_count query st) as [[e|count] st'] eqn:Hc.
    + left. unfold chat_response. rewrite Hq. unfold bind at 1. rewrite Hc.
      exact (quiz_count_state query st st' _ Hc).
    + assert (st' = st) by exact (quiz_count_state query st st' _ Hc).
      subst st'. right. split; [reflexivity|].
      rewrite (chat_response_quiz history query c st count Hq Hc).
      split; [reflexivity|]. cbn [fst]. eauto.
  - left. unfold chat_response. rewrite Hq.
    destruct (_ || _); reflexivity.
Qed.

Lemma submit_answer_position (user_answer : str) (st : Session) :
  quiz_data (snd (submit_answer user_answer st)) = quiz_data st
  /\ current_question (snd (submit_answer user_answer st))
     = current_question st.
Proof.
  destruct (submit_answer_cases user_answer st)
    as [[_ E]|[[_ E]|(q & ok & _ & _ & _ & E)]]; rewrite E; split; reflexivity.
Qed.

Lemma next_question_position (st : Session) :
  quiz_data (snd (next_question st)) = quiz_data st
  /\ (current_question (snd (next_question st)) = current_question st
      \/ (current_question (snd (next_question st))
          = (current_question st + 1)%Z
          /\ (current_question st < questions_count st - 1)%Z)).
Proof.
  destruct (answer_submitted st
            && (current_question st <? questions_count st - 1)%Z) eqn:E.
  - apply andb_true_iff in E as [Hs Hlt]. apply Z.ltb_lt in Hlt.
    destruct (next_question_moves st Hs Hlt) as [Hd Hp].
    split; [exact Hd|]. right. now split.
  - rewrite (next_question_stays st E). split; [reflexivity|now left].
Qed.

(** The invariant carried along the requests: the position is 0, or a
    valid index. *)
Lemma reachable_position (st : Session) :
  reachable st ->
  current_question st = 0%Z
  \/ (0 <= current_question st < questions_count st)%Z.
Proof.
  induction 1 as [|r st Hr IH]; [now left|].
  destruct r as [history query c|user_answer|]; cbn [handle].
  - destruct (chat_response_state history query c st) as [E|(_ & E & _)].
    + now rewrite E.
    + now left.
  - destruct (submit_answer_position user_answer st) as [Hd Hp].
    unfold questions_count in *. now rewrite Hd, Hp.
  - destruct (next_question_position st) as [Hd [Hp|[Hp Hlt]]];
      unfold questions_count in *; rewrite Hd, Hp; [exact IH|].
    right. lia.
Qed.

(** C10. In every session reachable from the initial one through the three
    handlers, [0 <= current_question <= len(quiz_data)]: starting a quiz
    sets the position to 0, [submit_answer] keeps it, and [next_question]
    keeps it or adds one when it is below [len(quiz_data) - 1]. *)
Theorem position_within_bounds (st : Session) :
  reachable st ->
  (0 <= current_question st <= questions_count st)%Z
  /\ (forall (history : History) (query : str) (c : Completion) v st',
        contains (lit "quiz") (lower query) = true ->
        chat_response history query c st = (inr v, st') ->
        current_question st' = 0%Z)
  /\ (forall user_answer : str,
        current_question (snd (submit_answer user_answer st))
        = current_question st)
  /\ (current_question (snd (next_question st)) = current_question st
      \/ (current_question (snd (next_question st))
          = (current_question st + 1)%Z
          /\ (current_question st < questions_count st - 1)%Z)).
Proof.
  intros Hr. repeat split.
  - destruct (reachable_position st Hr); lia.
  - destruct (reachable_position st Hr) as [H|H]; unfold questions_count in *; lia.
  - intros history query c v st' Hq E.
    destruct (quiz_count query st) as [[e|count] st''] eqn:Hc.
    + unfold chat_response in E. rewrite Hq in E.
      unfold bind at 1 in E. rewrite Hc in E. discriminate E.
    + assert (st'' = st) by exact (quiz_count_state query st st'' _ Hc).
      subst st''.
      rewrite (chat_response_quiz history query c st count Hq Hc) in E.
      now inversion E.
  - intros user_answer. apply submit_answer_position.
  - apply next_question_position.
Qed.

Lemma position_within_bounds_witness :
  (0 <= current_question
          (handle NextQuestion
             (handle (SubmitAnswer (lit "a"))
                (handle (Chat [] (lit "quiz me 3") (Content text_four_blocks))
                   initial_session)))
      <= 3)%Z.
Proof.
  exact (proj1 (position_within_bounds
                  (handle NextQuestion
                     (handle (SubmitAnswer (lit "a"))
                        (handle (Chat [] (lit "quiz me 3")
                                   (Content text_four_blocks))
                           initial_session)))
                  (reach_handle _ _
                     (reach_handle _ _
                        (reach_handle _ _ reach_initial))))).
Defined.

(** * The scenario of the specification *)

Example scenario_one_question :
  let text :=
    lit "Question: 2+2=? A)1 B)2 C)4 D)8" ++ [nl]
    ++ lit "Correct Answer: C" ++ [nl] ++ lit "Explanation: 2+2=4" in
  let st1 := handle (Chat [] (lit "quiz me now") (Content text))
               initial_session in
  map correct_answer (quiz_data st1) = [lit "C"]
  /\ fst (submit_answer (lit "c") st1) = inr (msg_correct, false, true)
  /\ fst (next_question (handle (SubmitAnswer (lit "c")) st1))
     = inr (lit "No more questions available!", [], lit "Quiz finished!",
            false, false).
Proof. repeat split. Qed.

(** * Further properties of the session handlers *)

Lemma py_index_in_range {A} (l : list A) (i : Z) :
  (0 <= i < Z.of_nat (List.length l))%Z -> exists a, py_index l i = Some a.
Proof.
  intros [H0 H1]. unfold py_index.
  destruct (i <? 0)%Z eqn:E; [apply Z.ltb_lt in E; lia|].
  destruct (nth_error l (Z.to_nat i)) as [a|] eqn:En; [eauto|].
  apply nth_error_None in En. lia.
Qed.

Lemma next_question_shows_next (st : Session) (q : Question) :
  answer_submitted st = true ->
  (current_question st < questions_count st - 1)%Z ->
  py_index (quiz_data st) (current_question st + 1) = Some q ->
  next_question st
  = (inr (question_text q, options q, [], true, false),
     {| quiz_data := quiz_data st;
        current_question := (current_question st + 1)%Z;
        answer_submitted := false |}).
Proof.
  unfold questions_count. intros Hs Hlt Hq. apply Z.ltb_lt in Hlt.
  unfold next_question, bind, read, ret, subscript,
    set_current_question, set_answer_submitted.
  rewrite Hs, Hlt. cbn [andb quiz_data current_question answer_submitted].
  rewrite Hq. reflexivity.
Qed.

Lemma next_question_submitted_flag (st : Session) :
  answer_submitted (snd (next_question st)) = true ->
  answer_submitted st = true.
Proof.
  destruct (answer_submitted st) eqn:Hs; [reflexivity|].
  rewrite next_question_stays by now rewrite Hs.
  cbn [snd]. now rewrite Hs.
Qed.

Lemma chat_response_submitted_flag
  (history : History) (query : str) (c : Completion) (st : Session) :
  snd (chat_response history query c st) = st
  \/ (current_question (snd (chat_response history query c st)) = 0%Z
      /\ answer_submitted (snd (chat_response history query c st)) = false).
Proof.
  destruct (contains (lit "quiz") (lower query)) eqn:Hq.
  - destruct (quiz_count query st) as [[e|count] st'] eqn:Hc.
    + left. unfold chat_response. rewrite Hq. unfold bind at 1. rewrite Hc.
      exact (quiz_count_state query st st' _ Hc).
    + assert (st' = st) by exact (quiz_count_state query st st' _ Hc).
      subst st'. right.
      rewrite (chat_response_quiz history query c st count Hq Hc).
      split; reflexivity.
  - left. unfold chat_response. rewrite Hq.
    destruct (_ || _); reflexivity.
Qed.

(** Along the requests a set submitted flag always belongs to an existing
    question, and the position is never negative. *)
Lemma reachable_submitted (st : Session) :
  reachable st ->
  (0 <= current_question st)%Z
  /\ (answer_submitted st = true ->
      (current_question st < questions_count st)%Z).
Proof.
  induction 1 as [|r st Hr [IH0 IHs]].
  - split; [cbn; lia|discriminate].
  - destruct r as [history query c|user_answer|]; cbn [handle].
    + destruct (chat_response_submitted_flag history query c st)
        as [E|[Ep Es]].
      * rewrite E. now split.
      * rewrite Ep, Es. split; [lia|discriminate].
    + destruct (submit_answer_cases user_answer st)
        as [[_ E]|[[_ E]|(q & ok & Hlt & _ & _ & E)]]; rewrite E; cbn [snd].
      * now split.
      * now split.
      * split; [exact IH0|]. intros _. exact Hlt.
    + destruct (next_question_position st) as [Hd [Hp|[Hp Hlt]]];
        unfold questions_count in *; rewrite Hd, Hp.
      * split; [exact IH0|]. intros Hs.
        apply IHs. now apply next_question_submitted_flag.
      * split; lia.
Qed.

Lemma submit_answer_raises_iff (user_answer : str) (st : Session) :
  (0 <= current_question st)%Z ->
  (exists e, fst (submit_answer user_answer st) = inl e)
  <-> ((current_question st < questions_count st)%Z
       /\ strip user_answer = []).
Proof.
  intros H0. split.
  - intros [e He].
    destruct (submit_answer_cases user_answer st)
      as [[_ E]|[[Hlt E]|(q & ok & _ & _ & _ & E)]];
      rewrite E in He; try discriminate He.
    split; [exact Hlt|].
    destruct (py_index_in_range (quiz_data st) (current_question st))
      as [q Hq]; [unfold questions_count in Hlt; lia|].
    destruct (strip user_answer) as [|c r] eqn:Hs; [reflexivity|].
    assert (Hok : is_correct user_answer (correct_answer q) st
                  = (inr (str_eqb [upper_char c]
                            (upper (strip (correct_answer q)))), st))
      by now rewrite is_correct_unfold, Hs.
    rewrite (submit_answer_evaluated user_answer st q _ Hlt Hq Hok) in E.
    discriminate E.
  - intros [Hlt Hs].
    destruct (py_index_in_range (quiz_data st) (current_question st))
      as [q Hq]; [unfold questions_count in Hlt; lia|].
    exists IndexError.
    now rewrite (submit_answer_blank user_answer st q Hlt Hq Hs).
Qed.

(** X1. In every reachable session the position is not negative, a set
    submitted flag belongs to an existing question, and a session without
    questions is never marked as submitted. *)
Theorem reachable_submitted_has_question (st : Session) :
  reachable st ->
  (0 <= current_question st)%Z
  /\ (answer_submitted st = true ->
      exists q, py_index (quiz_data st) (current_question st) = Some q)
  /\ (quiz_data st = [] -> answer_submitted st = false).
Proof.
  intros Hr. destruct (reachable_submitted st Hr) as [H0 Hs].
  split; [exact H0|]. split.
  - intros E. apply py_index_in_range.
    specialize (Hs E). unfold questions_count in Hs. lia.
  - intros Hd. destruct (answer_submitted st); [|reflexivity].
    specialize (Hs eq_refl). unfold questions_count in Hs.
    rewrite Hd in Hs. cbn in Hs. lia.
Qed.

Lemma reachable_submitted_has_question_witness :
  exists q,
    py_index
      (quiz_data
         (handle (SubmitAnswer (lit "a"))
            (handle (Chat [] (lit "quiz me 1")
                       (Content (block_sample "Q1" " B" " because")))
               initial_session)))
      0 = Some q.
Proof.
  assert (Hr : reachable
                 (handle (SubmitAnswer (lit "a"))
                    (handle (Chat [] (lit "quiz me 1")
                               (Content (block_sample "Q1" " B" " because")))
                       initial_session))).
  { apply reach_handle, reach_handle, reach_initial. }
  destruct (reachable_submitted_has_question _ Hr) as (_ & Hq & _).
  destruct (Hq eq_refl) as [q E].
  exists q. exact E.
Defined.

Lemma submit_answer_raises_index_error
  (user_answer : str) (st : Session) (e : exn) :
  fst (submit_answer user_answer st) = inl e ->
  e = IndexError /\ snd (submit_answer user_answer st) = st.
Proof.
  destruct (submit_answer_cases user_answer st)
    as [[_ E]|[[_ E]|(q & ok & _ & _ & _ & E)]]; rewrite E; cbn [fst snd];
    intros H; try discriminate H.
  injection H as <-. now split.
Qed.

Lemma submit_answer_click_none (st : Session) (q : Question) :
  py_index (quiz_data st) (current_question st) = Some q ->
  submit_answer_click None st
  = if (current_question st <? questions_count st)%Z
    then (inl AttributeError, st)
    else (inr (msg_no_more, false, false), st).
Proof.
  intros Hq. unfold submit_answer_click, questions_count, bind, read, ret,
    subscript, raise.
  destruct (current_question st <? _)%Z; [now rewrite Hq|reflexivity].
Qed.

Lemma submit_answer_click_none_out_of_range (st : Session) :
  (questions_count st <= current_question st)%Z ->
  submit_answer_click None st = (inr (msg_no_more, false, false), st).
Proof.
  intros H. unfold submit_answer_click, bind, read, ret.
  unfold questions_count in H.
  destruct (current_question st <? _)%Z eqn:E; [|reflexivity].
  apply Z.ltb_lt in E. lia.
Qed.

(** X2. In a reachable session [next_question] never raises, and the click
    handler of the submit button, given the value of the Radio ([None] or
    an ASCII label), raises exactly when a question is current and either
    nothing is selected ([AttributeError]) or the label is empty once
    trimmed ([IndexError]); a call that raises has not touched the
    session. *)
Theorem reachable_handlers_exceptions (st : Session) :
  reachable st ->
  (exists out st', next_question st = (inr out, st'))
  /\ (forall value : option str,
        (forall a, value = Some a -> is_ascii a = true) ->
        (fst (submit_answer_click value st) = inl AttributeError
         <-> ((current_question st < questions_count st)%Z
              /\ value = None))
        /\ (fst (submit_answer_click value st) = inl IndexError
            <-> ((current_question st < questions_count st)%Z
                 /\ exists a, value = Some a /\ strip a = []))
        /\ fst (submit_answer_click value st) <> inl ValueError
        /\ (forall e, fst (submit_answer_click value st) = inl e ->
                      snd (submit_answer_click value st) = st)).
Proof.
  intros Hr. destruct (reachable_submitted st Hr) as [H0 Hs]. split.
  - destruct (answer_submitted st
              && (current_question st <? questions_count st - 1)%Z) eqn:E.
    + apply andb_true_iff in E as [Hsub Hlt]. apply Z.ltb_lt in Hlt.
      destruct (py_index_in_range (quiz_data st) (current_question st + 1))
        as [q Hq]; [unfold questions_count in Hlt; lia|].
      rewrite (next_question_shows_next st q Hsub Hlt Hq). eauto.
    + rewrite (next_question_stays st E). eauto.
  - intros [a|] _.
    + cbn [submit_answer_click].
      pose proof (submit_answer_raises_iff a st H0) as Hiff.
      pose proof (submit_answer_raises_index_error a st) as Hex.
      split; [|split; [|split]].
      * split.
        -- intros H. destruct (Hex _ H) as [He _]. discriminate He.
        -- intros [_ H]. discriminate H.
      * split.
        -- intros H. destruct (proj1 Hiff (ex_intro _ _ H)) as [Hlt Hb].
           split; [exact Hlt|]. exists a. now split.
        -- intros (Hlt & a' & Ha & Hb). injection Ha as <-.
           destruct (proj2 Hiff (conj Hlt Hb)) as [e He].
           destruct (Hex _ He) as [-> _]. exact He.
      * intros H. destruct (Hex _ H) as [He _]. discriminate He.
      * intros e He. now destruct (Hex _ He).
    + destruct (Z.le_gt_cases (questions_count st) (current_question st))
        as [Hge|Hlt].
      * rewrite (submit_answer_click_none_out_of_range st Hge). cbn [fst snd].
        split; [|split; [|split]].
        -- split; [intros H; discriminate H|intros [H _]; lia].
        -- split; [intros H; discriminate H|intros [H _]; lia].
        -- discriminate.
        -- reflexivity.
      * destruct (py_index_in_range (quiz_data st) (current_question st))
          as [q Hq]; [unfold questions_count in Hlt; lia|].
        rewrite (submit_answer_click_none st q Hq).
        pose proof Hlt as Hb. apply Z.ltb_lt in Hb. rewrite Hb.
        cbn [fst snd]. split; [|split; [|split]].
        -- split; [intros _; now split|reflexivity].
        -- split; [intros H; discriminate H|].
           intros (_ & a & Ha & _). discriminate Ha.
        -- discriminate.
        -- reflexivity.
Qed.

Lemma reachable_handlers_exceptions_witness :
  (exists out st',
      next_question
        (handle (SubmitAnswer (lit "a"))
           (handle (Chat [] (lit "quiz me 3") (Content text_four_blocks))
              initial_session))
      = (inr out, st'))
  /\ fst (submit_answer_click None
            (handle (SubmitAnswer (lit "a"))
               (handle (Chat [] (lit "quiz me 3") (Content text_four_blocks))
                  initial_session)))
     = inl AttributeError
  /\ fst (submit_answer_click (Some (lit "  "))
            (handle (SubmitAnswer (lit "a"))
               (handle (Chat [] (lit "quiz me 3") (Content text_four_blocks))
                  initial_session)))
     = inl IndexError.
Proof.
  destruct (reachable_handlers_exceptions _
              (reach_handle (SubmitAnswer (lit "a")) _
                 (reach_handle
                    (Chat [] (lit "quiz me 3") (Content text_four_blocks))
                    _ reach_initial)))
    as [Hnext Hclick].
  split; [exact Hnext|]. split.
  - apply (proj1 (Hclick None ltac:(intros a H; discriminate H))).
    split; [vm_compute; reflexivity|reflexivity].
  - apply (proj1 (proj2 (Hclick (Some (lit "  "))
                           ltac:(intros a H; injection H as <-;
                                 reflexivity)))).
    split; [vm_compute; reflexivity|].
    exists (lit "  "). split; reflexivity.
Defined.

(** A click with nothing selected never writes a global, so the sessions
    reachable with such clicks are the reachable sessions. *)
Lemma submit_answer_click_none_state (st : Session) :
  snd (submit_answer_click None st) = st.
Proof.
  unfold submit_answer_click, bind, read, ret, subscript, raise.
  destruct (current_question st <? _)%Z; [|reflexivity].
  destruct (py_index _ _); reflexivity.
Qed.

(** X3. Submitting the same answer again gives the same result and leaves
    the session as the first submission left it. *)
Theorem submit_answer_idempotent (user_answer : str) (st : Session) :
  submit_answer user_answer (snd (submit_answer user_answer st))
  = submit_answer user_answer st.
Proof.
  destruct (submit_answer_cases user_answer st)
    as [[_ E]|[[_ E]|(q & ok & Hlt & Hq & Hok & E)]].
  - rewrite E. cbn [snd]. exact E.
  - rewrite E. cbn [snd]. exact E.
  - rewrite E. cbn [snd].
    apply (submit_answer_evaluated user_answer (mark_submitted st) q ok).
    + exact Hlt.
    + exact Hq.
    + rewrite is_correct_unfold in Hok |- *.
      destruct (strip user_answer); [discriminate Hok|].
      inversion Hok. reflexivity.
Qed.

(** X4. After a submission at a position that is not the last one,
    [next_question] moves to the following question: it returns that
    question's text and options with an empty feedback, enables the submit
    button, disables the next button and clears the submitted flag. *)
Theorem next_question_after_submit (st : Session) :
  answer_submitted st = true ->
  (0 <= current_question st < questions_count st - 1)%Z ->
  exists q,
    nth_error (quiz_data st) (Z.to_nat (current_question st + 1)) = Some q
    /\ next_question st
       = (inr (question_text q, options q, [], true, false),
          {| quiz_data := quiz_data st;
             current_question := (current_question st + 1)%Z;
             answer_submitted := false |}).
Proof.
  intros Hs [H0 Hlt].
  destruct (py_index_in_range (quiz_data st) (current_question st + 1))
    as [q Hq]; [unfold questions_count in Hlt; lia|].
  exists q. split.
  - unfold py_index in Hq.
    destruct (current_question st + 1 <? 0)%Z eqn:E; [|exact Hq].
    apply Z.ltb_lt in E. lia.
  - now apply next_question_shows_next.
Qed.

Lemma next_question_after_submit_witness :
  next_question (session_two 0 true)
  = (inr (lit "Q2", [lit "A"; lit "B"; lit "C"; lit "D"], [], true, false),
     session_two 1 false).
Proof.
  destruct (next_question_after_submit (session_two 0 true) eq_refl
              ltac:(unfold questions_count; cbn; lia)) as (q & Hq & E).
  vm_compute in Hq. injection Hq as <-. exact E.
Defined.

Lemma answer_and_advance_step
  (data : list Question) (k : Z) (user_answer : str) :
  strip user_answer <> [] ->
  (0 <= k < Z.of_nat (List.length data) - 1)%Z ->
  answer_and_advance
    {| quiz_data := data; current_question := k; answer_submitted := false |}
    user_answer
  = {| quiz_data := data;
       current_question := (k + 1)%Z;
       answer_submitted := false |}.
Proof.
  intros Ha [H0 Hlt].
  set (st := {| quiz_data := data; current_question := k;
                answer_submitted := false |}).
  destruct (py_index_in_range data k) as [q Hq]; [lia|].
  destruct (strip user_answer) as [|c r] eqn:Hs; [now elim Ha|].
  assert (Hok : is_correct user_answer (correct_answer q) st
                = (inr (str_eqb [upper_char c]
                          (upper (strip (correct_answer q)))), st))
    by now rewrite is_correct_unfold, Hs.
  unfold answer_and_advance. cbn [handle].
  rewrite (submit_answer_evaluated user_answer st q _
             ltac:(unfold questions_count; cbn; lia) Hq Hok).
  cbn [snd].
  destruct (py_index_in_range data (k + 1)) as [q' Hq']; [lia|].
  rewrite (next_question_shows_next (mark_submitted st) q' eq_refl
             ltac:(unfold questions_count; cbn; lia) Hq').
  reflexivity.
Qed.

Lemma answer_and_advance_walk (data : list Question) (answers : list str) :
  Forall (fun a => strip a <> []) answers ->
  forall k : Z,
    (0 <= k)%Z ->
    (k + Z.of_nat (List.length answers) < Z.of_nat (List.length data))%Z ->
    fold_left answer_and_advance answers
      {| quiz_data := data; current_question := k;
         answer_submitted := false |}
    = {| quiz_data := data;
         current_question := (k + Z.of_nat (List.length answers))%Z;
         answer_submitted := false |}.
Proof.
  induction 1 as [|a answers Ha _ IH]; intros k H0 Hlt.
  - cbn [fold_left List.length Z.of_nat]. now rewrite Z.add_0_r.
  - cbn [fold_left]. cbn [List.length] in Hlt |- *.
    rewrite answer_and_advance_step by (assumption || lia).
    rewrite IH by lia. f_equal. lia.
Qed.

(** X5. From a freshly started quiz, answering with non-blank answers and
    pressing next after each one visits the questions in order: after [k]
    rounds, [k] below the number of questions, the session is at position
    [k] with the same questions and waits for an answer. *)
Theorem quiz_walk (data : list Question) (answers : list str) :
  Forall (fun a => strip a <> []) answers ->
  (List.length answers < List.length data)%nat ->
  fold_left answer_and_advance answers (fresh_quiz data)
  = {| quiz_data := data;
       current_question := Z.of_nat (List.length answers);
       answer_submitted := false |}.
Proof.
  intros Ha Hlt. unfold fresh_quiz.
  rewrite (answer_and_advance_walk data answers Ha 0%Z) by lia.
  reflexivity.
Qed.

Lemma quiz_walk_witness :
  fold_left answer_and_advance [lit "a"] (fresh_quiz [q_sample; q_other])
  = session_two 1 false.
Proof.
  apply (quiz_walk [q_sample; q_other] [lit "a"]).
  - constructor; [vm_compute; discriminate|constructor].
  - cbn. lia.
Defined.

(** * Further properties of [chat_response] *)

(** [quiz_count] reads the query only. *)
Lemma quiz_count_pure (query : str) (st : Session) :
  quiz_count query st = (fst (quiz_count query initial_session), st).
Proof.
  unfold quiz_count, bind, subscript, raise, ret.
  destruct (py_index _ _); [destruct (isdigit _); [destruct (int _)|]|];
    reflexivity.
Qed.

Lemma split_tokens_of_length (query : str) :
  (3 <= List.length (split (lit " ") query))%nat ->
  exists t0 t1 t2 rest, split (lit " ") query = t0 :: t1 :: t2 :: rest.
Proof.
  destruct (split (lit " ") query) as [|t0 [|t1 [|t2 rest]]];
    cbn [List.length]; try lia.
  eauto 6.
Qed.

Lemma chat_response_no_quiz
  (history : History) (query : str) (c : Completion) (st : Session) :
  contains (lit "quiz") (lower query) = false ->
  chat_response history query c st
  = (inr (history ++ [(query, handle_prompt query c)], [], [], [],
          false, false), st).
Proof.
  intros Hq. unfold chat_response. rewrite Hq.
  destruct (_ || _); reflexivity.
Qed.

Lemma int_none_length (s : str) :
  int s = None -> (max_str_digits < List.length s)%nat.
Proof.
  unfold int. destruct (max_str_digits <? List.length s)%nat eqn:E;
    [intros _; now apply Nat.ltb_lt|discriminate].
Qed.

(** A quiz request whose third token is a digit string beyond the limit of
    [int] raises before any global is written. *)
Lemma chat_response_long_count
  (history : History) (query : str) (c : Completion) (st : Session)
  (t0 t1 t2 : str) (rest : list str) :
  contains (lit "quiz") (lower query) = true ->
  split (lit " ") query = t0 :: t1 :: t2 :: rest ->
  isdigit t2 = true ->
  (max_str_digits < List.length t2)%nat ->
  chat_response history query c st = (inl ValueError, st).
Proof.
  intros Hq Hs Hd Hlen. unfold chat_response. rewrite Hq.
  unfold bind at 1.
  rewrite (quiz_count_tokens query st t0 t1 t2 rest Hs), Hd.
  now rewrite (int_beyond_limit t2 Hlen).
Qed.

(** X6. For a query whose third space-separated token, when there is one,
    is ASCII text, [chat_response] raises exactly when the query is a quiz
    request and either has fewer than three tokens ([IndexError]) or has a
    digit string of more than 4300 digits as its third token
    ([ValueError]); a call that raises has not touched the session. *)
Theorem chat_response_raises_iff
  (history : History) (query : str) (c : Completion) (st : Session) :
  (forall t, nth_error (split (lit " ") query) 2 = Some t ->
             is_ascii t = true) ->
  (fst (chat_response history query c st) = inl IndexError
   <-> (contains (lit "quiz") (lower query) = true
        /\ (List.length (split (lit " ") query) < 3)%nat))
  /\ (fst (chat_response history query c st) = inl ValueError
      <-> (contains (lit "quiz") (lower query) = true
           /\ exists t, nth_error (split (lit " ") query) 2 = Some t
                        /\ isdigit t = true
                        /\ (max_str_digits < List.length t)%nat))
  /\ fst (chat_response history query c st) <> inl AttributeError
  /\ (forall e, fst (chat_response history query c st) = inl e ->
                snd (chat_response history query c st) = st).
Proof.
  intros _.
  destruct (contains (lit "quiz") (lower query)) eqn:Hq.
  2:{ rewrite (chat_response_no_quiz history query c st Hq). cbn [fst snd].
      split; [|split; [|split]].
      - split; [intros H; discriminate H|intros [H _]; discriminate H].
      - split; [intros H; discriminate H|intros [H _]; discriminate H].
      - discriminate.
      - intros e He. discriminate He. }
  destruct (Nat.lt_ge_cases (List.length (split (lit " ") query)) 3)
    as [Hlt|Hge].
  - rewrite (chat_response_short_query history query c st Hq Hlt).
    cbn [fst snd]. split; [|split; [|split]].
    + split; [intros _; now split|reflexivity].
    + split; [intros H; discriminate H|].
      intros (_ & t & Ht & _).
      assert (nth_error (split (lit " ") query) 2 = None)
        by (apply nth_error_None; lia).
      congruence.
    + discriminate.
    + reflexivity.
  - destruct (split_tokens_of_length query Hge)
      as (t0 & t1 & t2 & rest & Hs).
    assert (Hn : nth_error (split (lit " ") query) 2 = Some t2)
      by now rewrite Hs.
    pose proof (quiz_count_tokens query st t0 t1 t2 rest Hs) as Hc.
    destruct (isdigit t2) eqn:Hd; [destruct (int t2) as [n|] eqn:Hi|].
    + rewrite (chat_response_quiz history query c st n Hq Hc). cbn [fst snd].
      split; [|split; [|split]].
      * split; [intros H; discriminate H|intros [_ H]; lia].
      * split; [intros H; discriminate H|].
        intros (_ & t & Ht & _ & Hlen).
        rewrite Hn in Ht. injection Ht as <-.
        rewrite (int_beyond_limit t2 Hlen) in Hi. discriminate Hi.
      * discriminate.
      * intros e He. discriminate He.
    + pose proof (int_none_length t2 Hi) as Hlen.
      rewrite (chat_response_long_count history query c st t0 t1 t2 rest
                 Hq Hs Hd Hlen).
      cbn [fst snd]. split; [|split; [|split]].
      * split; [intros H; discriminate H|intros [_ H]; lia].
      * split; [intros _; split; [reflexivity|]|reflexivity].
        exists t2. now repeat split.
      * discriminate.
      * reflexivity.
    + rewrite (chat_response_quiz history query c st 5 Hq Hc). cbn [fst snd].
      split; [|split; [|split]].
      * split; [intros H; discriminate H|intros [_ H]; lia].
      * split; [intros H; discriminate H|].
        intros (_ & t & Ht & Hd' & _).
        rewrite Hn in Ht. injection Ht as <-. congruence.
      * discriminate.
      * intros e He. discriminate He.
Qed.

Lemma chat_response_raises_iff_witness :
  fst (chat_response [] (lit "quiz please") (Failed []) initial_session)
  = inl IndexError.
Proof.
  apply (proj1 (chat_response_raises_iff [] (lit "quiz please") (Failed [])
                  initial_session
                  ltac:(intros t H; vm_compute in H; discriminate H))).
  split; [reflexivity|cbn; lia].
Defined.

(** X7. A quiz request that returns replaces the whole session: its result
    and the session it leaves do not depend on the session it found. *)
Theorem chat_response_quiz_discards_session
  (history : History) (query : str) (c : Completion) (st1 st2 : Session) :
  contains (lit "quiz") (lower query) = true ->
  fst (chat_response history query c st1)
  = fst (chat_response history query c st2)
  /\ (forall v, fst (chat_response history query c st1) = inr v ->
                snd (chat_response history query c st1)
                = snd (chat_response history query c st2)).
Proof.
  intros Hq.
  destruct (fst (quiz_count query initial_session)) as [e|count] eqn:Hc.
  - assert (Hr : forall st, chat_response history query c st
                            = (inl e, st)).
    { intros st. unfold chat_response. rewrite Hq. unfold bind at 1.
      now rewrite quiz_count_pure, Hc. }
    rewrite !Hr. split; [reflexivity|]. intros v Hv. discriminate Hv.
  - assert (Hr : forall st, quiz_count query st = (inr count, st))
      by (intros st; now rewrite quiz_count_pure, Hc).
    rewrite (chat_response_quiz history query c st1 count Hq (Hr st1)).
    rewrite (chat_response_quiz history query c st2 count Hq (Hr st2)).
    split; [reflexivity|]. intros v _. reflexivity.
Qed.

Lemma chat_response_quiz_discards_session_witness :
  snd (chat_response [] (lit "quiz me 2") (Content text_four_blocks)
         (session_two 1 true))
  = snd (chat_response [] (lit "quiz me 2") (Content text_four_blocks)
           initial_session).
Proof.
  destruct (chat_response_quiz_discards_session [] (lit "quiz me 2")
              (Content text_four_blocks) (session_two 1 true)
              initial_session eq_refl) as [_ H].
  eapply H. reflexivity.
Defined.

Lemma slice_to_zero {A} (l : list A) : slice_to l 0 = [].
Proof. reflexivity. Qed.

(** X8. A quiz request whose count is 0 and whose completion succeeds
    starts no quiz, whatever the completion text: the reply is "Failed to
    generate quiz." and the session is left without questions. *)
Theorem chat_response_zero_questions
  (history : History) (query text : str) (st : Session) :
  contains (lit "quiz") (lower query) = true ->
  quiz_count query st = (inr 0%Z, st) ->
  chat_response history query (Content text) st
  = (inr (history ++ [(query, lit "Failed to generate quiz.")],
          lit "No questions available.", [], [], false, false),
     fresh_quiz []).
Proof.
  intros Hq Hc.
  rewrite (chat_response_quiz history query (Content text) st 0 Hq Hc).
  rewrite generate_content, slice_to_zero. reflexivity.
Qed.

Lemma chat_response_zero_questions_witness :
  chat_response [] (lit "quiz me 0") (Content text_four_blocks)
    (session_two 1 true)
  = (inr ([(lit "quiz me 0", lit "Failed to generate quiz.")],
          lit "No questions available.", [], [], false, false),
     fresh_quiz []).
Proof.
  exact (chat_response_zero_questions [] (lit "quiz me 0") text_four_blocks
           (session_two 1 true) eq_refl eq_refl).
Defined.

Lemma is_correct_true_single_char
  (user_answer correct : str) (st st' : Session) :
  is_correct user_answer correct st = (inr true, st') ->
  List.length (strip correct) = 1%nat.
Proof.
  rewrite is_correct_unfold.
  destruct (strip user_answer) as [|c r]; [discriminate|].
  intros H.
  assert (Hb : str_eqb [upper_char c] (upper (strip correct)) = true)
    by congruence.
  apply str_eqb_eq in Hb.
  apply (f_equal (@List.length ascii)) in Hb.
  unfold upper in Hb. rewrite length_map in Hb. cbn in Hb. lia.
Qed.

(** X9. For ASCII text, an answer is judged correct only against a
    correct answer that is a single character once trimmed: when the
    stored correct answer is ASCII and its trimmed form has any other
    length, every non-blank ASCII answer gets the "Incorrect" feedback. *)
Theorem submit_answer_needs_single_letter
  (user_answer : str) (st : Session) (q : Question) :
  (current_question st < questions_count st)%Z ->
  py_index (quiz_data st) (current_question st) = Some q ->
  is_ascii user_answer = true ->
  is_ascii (correct_answer q) = true ->
  List.length (strip (correct_answer q)) <> 1%nat ->
  strip user_answer <> [] ->
  submit_answer user_answer st
  = (inr (msg_incorrect (correct_answer q) (explanation q), false, true),
     mark_submitted st).
Proof.
  intros Hlt Hq _ _ Hlen Ha.
  destruct (is_correct user_answer (correct_answer q) st)
    as [[e|ok] st'] eqn:Hok.
  - rewrite is_correct_unfold in Hok.
    destruct (strip user_answer); [now elim Ha|discriminate Hok].
  - assert (st' = st).
    { rewrite is_correct_unfold in Hok.
      destruct (strip user_answer); now inversion Hok. }
    subst st'. destruct ok.
    + elim Hlen. now apply (is_correct_true_single_char _ _ _ _ Hok).
    + now rewrite (submit_answer_evaluated user_answer st q false Hlt Hq Hok).
Qed.

Lemma submit_answer_needs_single_letter_witness :
  submit_answer (lit "N") (fresh_quiz [sentinel])
  = (inr (msg_incorrect (lit "N/A") (lit "No explanation available."),
          false, true),
     mark_submitted (fresh_quiz [sentinel])).
Proof.
  apply (submit_answer_needs_single_letter (lit "N") (fresh_quiz [sentinel])
           sentinel).
  - unfold questions_count; cbn; lia.
  - reflexivity.
  - reflexivity.
  - reflexivity.
  - vm_compute. discriminate.
  - vm_compute. discriminate.
Defined.

(** X10. A quiz request whose completion call fails still reports "Quiz
    started!": the session holds the one sentinel question, shown without
    answer choices and with the submit button enabled, and no non-blank
    answer to it is judged correct. *)
Theorem chat_response_failed_completion
  (history : History) (query e : str) (count : Z) (st : Session) :
  contains (lit "quiz") (lower query) = true ->
  quiz_count query st = (inr count, st) ->
  chat_response history query (Failed e) st
  = (inr (history ++ [(query, lit "Quiz started!")],
          lit "Error: Failed to generate quiz.", [], [], true, false),
     fresh_quiz [sentinel])
  /\ (forall user_answer : str,
        strip user_answer <> [] ->
        fst (submit_answer user_answer (fresh_quiz [sentinel]))
        = inr (msg_incorrect (lit "N/A") (lit "No explanation available."),
               false, true)).
Proof.
  intros Hq Hc. split.
  - now rewrite (chat_response_quiz history query (Failed e) st count Hq Hc).
  - intros user_answer Ha.
    destruct (is_correct user_answer (lit "N/A") (fresh_quiz [sentinel]))
      as [[x|ok] st'] eqn:Hok.
    + rewrite is_correct_unfold in Hok.
      destruct (strip user_answer); [now elim Ha|discriminate Hok].
    + assert (st' = fresh_quiz [sentinel]).
      { rewrite is_correct_unfold in Hok.
        destruct (strip user_answer); now inversion Hok. }
      subst st'. destruct ok.
      * apply is_correct_true_single_char in Hok.
        vm_compute in Hok. discriminate Hok.
      * now rewrite (submit_answer_evaluated user_answer
                       (fresh_quiz [sentinel]) sentinel false
                       ltac:(unfold questions_count; cbn; lia)
                       eq_refl Hok).
Qed.

Lemma chat_response_failed_completion_witness :
  chat_response [] (lit "quiz me 3") (Failed (lit "timeout")) initial_session
  = (inr ([(lit "quiz me 3", lit "Quiz started!")],
          lit "Error: Failed to generate quiz.", [], [], true, false),
     fresh_quiz [sentinel]).
Proof.
  exact (proj1 (chat_response_failed_completion [] (lit "quiz me 3")
                  (lit "timeout") 3 initial_session eq_refl eq_refl)).
Defined.

(** * Further properties of the parser *)

Lemma lstrip_idem (s : str) : lstrip (lstrip s) = lstrip s.
Proof.
  destruct (lstrip s) as [|c r] eqn:E; [reflexivity|].
  apply lstrip_nonspace. exact (lstrip_head s c r E).
Qed.

Lemma rstrip_idem (s : str) : rstrip (rstrip s) = rstrip s.
Proof. unfold rstrip. now rewrite rev_involutive, lstrip_idem. Qed.

Lemma lstrip_strip (s : str) : lstrip (strip s) = strip s.
Proof.
  destruct (lstrip s) as [|c r] eqn:E.
  - unfold strip. rewrite E. reflexivity.
  - destruct (strip_head s c r E) as [r' Hr]. rewrite Hr.
    apply lstrip_nonspace. exact (lstrip_head s c r E).
Qed.

Lemma strip_idem (s : str) : strip (strip s) = strip s.
Proof.
  unfold strip at 1. rewrite lstrip_strip.
  unfold strip. apply rstrip_idem.
Qed.

Lemma startswith_app_l (sep a t : str) :
  startswith sep a = true -> startswith sep (a ++ t) = true.
Proof.
  revert a; induction sep as [|x sep IH]; intros a H; [reflexivity|].
  destruct a as [|y a]; [discriminate|].
  cbn [app startswith] in *.
  apply andb_true_iff in H as [Hxy Ha]. rewrite Hxy. now apply IH.
Qed.

Lemma contains_app_l (sep a t : str) :
  contains sep a = true -> contains sep (a ++ t) = true.
Proof.
  induction a as [|y a IH]; cbn [contains]; intros H.
  - rewrite orb_false_r in H.
    destruct sep; [|discriminate].
    destruct ([] ++ t); reflexivity.
  - cbn [app contains]. apply orb_true_iff in H as [H|H].
    + apply (startswith_app_l sep (y :: a) t) in H. cbn [app] in H.
      now rewrite H.
    + rewrite (IH H). apply orb_true_r.
Qed.

Lemma lstrip_suffix (s : str) : exists w, s = w ++ lstrip s.
Proof.
  induction s as [|c s [w IH]]; [exists []; reflexivity|].
  cbn [lstrip]. destruct (isspace c).
  - exists (c :: w). cbn [app]. now rewrite <- IH.
  - exists []. reflexivity.
Qed.

Lemma rstrip_prefix (s : str) : exists w, s = rstrip s ++ w.
Proof.
  destruct (lstrip_suffix (rev s)) as [w Hw].
  exists (rev w). unfold rstrip.
  rewrite <- rev_app_distr, <- Hw. now rewrite rev_involutive.
Qed.

(** What [strip] returns is a piece of its argument. *)
Lemma contains_strip (sep s : str) :
  contains sep (strip s) = true -> contains sep s = true.
Proof.
  intros H. unfold strip in H.
  destruct (rstrip_prefix (lstrip s)) as [w Hw].
  destruct (lstrip_suffix s) as [v Hv].
  rewrite Hv. apply contains_app_r.
  rewrite Hw. now apply contains_app_l.
Qed.

Lemma contains_firstn (sep s : str) (i : nat) :
  contains sep (firstn i s) = true -> contains sep s = true.
Proof.
  intros H. rewrite <- (firstn_skipn i s). now apply contains_app_l.
Qed.

Lemma find_none_contains (sep s : str) :
  find sep s = None -> contains sep s = false.
Proof.
  intros H. destruct (contains sep s) eqn:E; [|reflexivity].
  now elim (contains_find sep s E).
Qed.

Lemma rfind_none_contains (sep s : str) :
  rfind sep s = None -> contains sep s = false.
Proof.
  intros H. destruct (contains sep s) eqn:E; [|reflexivity].
  now elim (contains_rfind sep s E).
Qed.

Lemma contains_before_first (sep s : str) :
  sep <> [] -> contains sep (before_first sep s) = false.
Proof.
  intros Hne. unfold before_first.
  destruct (find sep s) as [i|] eqn:E; [|now apply find_none_contains].
  revert i E; induction s as [|c s IH]; intros i E.
  - rewrite firstn_nil. cbn [contains].
    now rewrite (startswith_nil sep Hne).
  - cbn [find] in E. destruct (startswith sep (c :: s)) eqn:Es.
    + injection E as <-. cbn [firstn contains].
      now rewrite (startswith_nil sep Hne).
    + destruct (find sep s) as [j|] eqn:Ej; [|discriminate].
      injection E as <-. cbn [firstn contains].
      rewrite (IH j eq_refl), orb_false_r.
      destruct (startswith sep (c :: firstn j s)) eqn:E'; [|reflexivity].
      apply (startswith_app_l _ _ (skipn j s)) in E'.
      cbn [app] in E'. rewrite firstn_skipn in E'. congruence.
Qed.

Lemma rfind_none_skipn (sep s : str) (k : nat) :
  sep <> [] -> rfind sep s = None -> rfind sep (skipn k s) = None.
Proof.
  intros Hne. revert k; induction s as [|c s IH]; intros k H.
  - now rewrite skipn_nil.
  - destruct k as [|k]; [exact H|].
    cbn [skipn]. apply IH. cbn [rfind] in H.
    destruct (rfind sep s); [discriminate|reflexivity].
Qed.

Lemma rfind_some_skipn (sep s : str) (i k : nat) :
  sep <> [] -> rfind sep s = Some i -> (i < k)%nat ->
  rfind sep (skipn k s) = None.
Proof.
  intros Hne. revert i k; induction s as [|c s IH]; intros i k H Hk.
  - cbn [rfind] in H. rewrite (startswith_nil sep Hne) in H. discriminate.
  - destruct k as [|k]; [lia|]. cbn [skipn].
    cbn [rfind] in H. destruct (rfind sep s) as [j|] eqn:Ej.
    + injection H as <-. apply (IH j); [reflexivity|lia].
    + now apply rfind_none_skipn.
Qed.

Lemma contains_after_last (sep s : str) :
  sep <> [] -> contains sep (after_last sep s) = false.
Proof.
  intros Hne. unfold after_last.
  destruct (rfind sep s) as [i|] eqn:E; [|now apply rfind_none_contains].
  apply rfind_none_contains.
  apply (rfind_some_skipn sep s i); try assumption.
  pose proof (sep_length_pos sep Hne). lia.
Qed.

Lemma contains_false_strip (sep s : str) :
  contains sep s = false -> contains sep (strip s) = false.
Proof.
  intros H. destruct (contains sep (strip s)) eqn:E; [|reflexivity].
  apply contains_strip in E. congruence.
Qed.

(** X11. No field of a parsed question carries the marker it was cut at:
    the question text shown to the user never contains "Correct Answer:"
    (so nothing of the answer line reaches it), the explanation never
    contains "Explanation:", and the correct answer contains neither. *)
Theorem parse_block_fields_without_markers (b : str) :
  contains marker_answer (question_text (parse_block b)) = false
  /\ contains marker_explanation (explanation (parse_block b)) = false
  /\ contains marker_answer (correct_answer (parse_block b)) = false
  /\ contains marker_explanation (correct_answer (parse_block b)) = false.
Proof.
  assert (Ha : marker_answer <> []) by discriminate.
  assert (He : marker_explanation <> []) by discriminate.
  rewrite parse_block_by_position.
  cbn [question_text explanation correct_answer].
  repeat split; apply contains_false_strip.
  - now apply contains_before_first.
  - now apply contains_after_last.
  - unfold before_first at 1.
    destruct (find marker_explanation (after_last marker_answer b)) as [i|].
    + destruct (contains marker_answer
                  (firstn i (after_last marker_answer b))) eqn:E;
        [|reflexivity].
      apply contains_firstn in E.
      now rewrite contains_after_last in E.
    + now apply contains_after_last.
  - now apply contains_before_first.
Qed.

Lemma In_slice_to {A} (l : list A) (k : Z) (a : A) :
  In a (slice_to l k) -> In a l.
Proof.
  unfold slice_to. intros H.
  destruct (k <? 0)%Z;
    match type of H with
    | In _ (firstn ?n _) => rewrite <- (firstn_skipn n l)
    end; apply in_or_app; now left.
Qed.

Lemma generate_generated
  (query : str) (k : Z) (c : Completion) (q : Question) :
  In q (generate_quiz_questions_with_rag query k c) -> generated_question q.
Proof.
  destruct c as [text|e].
  - rewrite generate_content. intros H. apply In_slice_to in H.
    apply in_map_iff in H as (b & Hb & Hin).
    apply filter_In in Hin as [_ Hacc].
    right. exists b. now split.
  - cbn. intros [H|[]]. now left.
Qed.

Lemma chat_response_data
  (history : History) (query : str) (c : Completion) (st : Session) :
  snd (chat_response history query c st) = st
  \/ exists count,
       quiz_data (snd (chat_response history query c st))
       = generate_quiz_questions_with_rag query count c.
Proof.
  destruct (contains (lit "quiz") (lower query)) eqn:Hq.
  - destruct (fst (quiz_count query initial_session)) as [e|count] eqn:Hc.
    + left. unfold chat_response. rewrite Hq. unfold bind at 1.
      now rewrite quiz_count_pure, Hc.
    + right. exists count.
      assert (Hr : quiz_count query st = (inr count, st))
        by now rewrite quiz_count_pure, Hc.
      now rewrite (chat_response_quiz history query c st count Hq Hr).
  - left. now rewrite chat_response_no_quiz.
Qed.

Lemma reachable_generated (st : Session) :
  reachable st -> forall q, In q (quiz_data st) -> generated_question q.
Proof.
  induction 1 as [|r st Hr IH]; [intros q []|].
  destruct r as [history query c|user_answer|]; cbn [handle].
  - destruct (chat_response_data history query c st) as [E|[count E]].
    + now rewrite E.
    + rewrite E. intros q. apply generate_generated.
  - destruct (submit_answer_position user_answer st) as [Hd _].
    now rewrite Hd.
  - destruct (next_question_position st) as [Hd _]. now rewrite Hd.
Qed.

(** X12. Every question of a reachable session has trimmed fields: text,
    correct answer and explanation carry no white space at either end, so
    the [strip] that [submit_answer] applies to the stored correct answer
    changes nothing; and its answer choices are A, B, C, D unless it is the
    sentinel question, which has none. *)
Theorem reachable_questions_trimmed (st : Session) (q : Question) :
  reachable st ->
  In q (quiz_data st) ->
  strip (question_text q) = question_text q
  /\ strip (correct_answer q) = correct_answer q
  /\ strip (explanation q) = explanation q
  /\ (options q = [lit "A"; lit "B"; lit "C"; lit "D"]
      \/ (q = sentinel /\ options q = [])).
Proof.
  intros Hr Hin.
  destruct (reachable_generated st Hr q Hin) as [->|(b & _ & ->)].
  - repeat split; try reflexivity. right. now split.
  - unfold parse_block.
    cbn [question_text correct_answer explanation options].
    rewrite !strip_idem. repeat split. now left.
Qed.

Lemma reachable_questions_trimmed_witness :
  strip (correct_answer
           (parse_block (block_sample "Question: one" " c " " why")))
  = correct_answer (parse_block (block_sample "Question: one" " c " " why")).
Proof.
  assert (Hr : reachable
                 (handle (Chat [] (lit "quiz me 1")
                            (Content
                               (block_sample "Question: one" " c " " why")))
                    initial_session))
    by apply reach_handle, reach_initial.
  destruct (reachable_questions_trimmed _
              (parse_block (block_sample "Question: one" " c " " why"))
              Hr ltac:(vm_compute; left; reflexivity))
    as (_ & H & _).
  exact H.
Defined.

Lemma lstrip_app_nonblank (y t : str) :
  lstrip y <> [] -> lstrip (y ++ t) = lstrip y ++ t.
Proof.
  induction y as [|c y IH]; intros H; [now elim H|].
  cbn [app lstrip] in *. destruct (isspace c); [now apply IH|reflexivity].
Qed.

Lemma strip_bullet (y : str) :
  lstrip y <> [] -> strip (y ++ lit "- ") = lstrip y ++ lit "-".
Proof.
  intros H. unfold strip. rewrite lstrip_app_nonblank by assumption.
  unfold rstrip. rewrite rev_app_distr. cbn [lit list_ascii_of_string rev app].
  change (lstrip (" "%char :: "-"%char :: rev (lstrip y)))
    with ("-"%char :: rev (lstrip y)).
  cbn [rev]. now rewrite rev_involutive.
Qed.

(** X13. A block that follows the bullet layout the prompt asks for, with
    "- " in front of "Explanation:" and some ASCII text that is not all
    white space between "Correct Answer:" and that bullet, is parsed with
    a correct answer that ends in the bullet's dash; such a correct answer
    has more than one character, so no ASCII answer is ever judged correct
    against it. *)
Theorem parse_block_bullet_layout (p y e : str) :
  let b := p ++ marker_answer ++ (y ++ lit "- ") ++ marker_explanation ++ e in
  find marker_answer b = Some (List.length p) ->
  rfind marker_answer b = Some (List.length p) ->
  find marker_explanation b
  = Some (List.length (p ++ marker_answer ++ (y ++ lit "- "))) ->
  rfind marker_explanation b
  = Some (List.length (p ++ marker_answer ++ (y ++ lit "- "))) ->
  is_ascii y = true ->
  lstrip y <> [] ->
  correct_answer (parse_block b) = lstrip y ++ lit "-"
  /\ (1 < List.length (correct_answer (parse_block b)))%nat
  /\ (forall (user_answer : str) (st : Session),
        is_ascii user_answer = true ->
        fst (is_correct user_answer (correct_answer (parse_block b)) st)
        <> inr true).
Proof.
  intros b Hf Hr Hfe Hre _ Hy.
  assert (E : correct_answer (parse_block b) = lstrip y ++ lit "-").
  { unfold b.
    rewrite (parse_block_well_formed p (y ++ lit "- ") e Hf Hr Hfe Hre).
    cbn [correct_answer]. now apply strip_bullet. }
  assert (Hlen : (1 < List.length (lstrip y ++ lit "-"))%nat).
  { rewrite length_app. cbn [lit list_ascii_of_string List.length].
    destruct (lstrip y); [now elim Hy|cbn [List.length]; lia]. }
  split; [exact E|]. split; [now rewrite E|].
  intros user_answer st _ Hok.
  destruct (is_correct user_answer (correct_answer (parse_block b)) st)
    as [r st'] eqn:Hc.
  cbn [fst] in Hok. subst r.
  apply is_correct_true_single_char in Hc.
  rewrite E in Hc. rewrite <- strip_bullet in Hc by assumption.
  rewrite strip_idem, strip_bullet in Hc by assumption.
  lia.
Qed.

Lemma parse_block_bullet_layout_witness :
  correct_answer
    (parse_block
       (lit "- Question: 2+2=?  - " ++ marker_answer
        ++ (lit " C " ++ lit "- ") ++ marker_explanation ++ lit " sum"))
  = lit "C -".
Proof.
  exact (proj1 (parse_block_bullet_layout
                  (lit "- Question: 2+2=?  - ") (lit " C ") (lit " sum")
                  eq_refl eq_refl eq_refl eq_refl eq_refl
                  ltac:(vm_compute; discriminate))).
Defined.

(** ** Blocks joined by blank lines *)

Lemma split_go_app_sep (sep a t cur : str) :
  sep <> [] ->
  (forall k, (k < List.length a)%nat ->
             startswith sep (skipn k (a ++ sep ++ t)) = false) ->
  split_go sep 0 cur (a ++ sep ++ t)
  = (rev cur ++ a) :: split_go sep 0 [] t.
Proof.
  intros Hne. revert cur; induction a as [|x a IH]; intros cur Hno.
  - cbn [app]. rewrite split_go_match by (assumption || apply startswith_app).
    rewrite app_nil_r. f_equal.
    rewrite <- (Nat.add_0_r (List.length sep)). now rewrite skipn_past.
  - cbn [app]. rewrite split_go_no_match.
    + rewrite IH.
      * cbn [rev]. now rewrite <- app_assoc.
      * intros k Hk. apply (Hno (S k)). cbn [List.length]. lia.
    + apply (Hno 0%nat). cbn [List.length]. lia.
Qed.

Lemma split_go_no_sep (sep a cur : str) :
  sep <> [] ->
  (forall k, (k < List.length a)%nat ->
             startswith sep (skipn k a) = false) ->
  split_go sep 0 cur a = [rev cur ++ a].
Proof.
  intros Hne. revert cur; induction a as [|x a IH]; intros cur Hno.
  - cbn [split_go]. now rewrite app_nil_r.
  - rewrite split_go_no_match.
    + rewrite IH.
      * cbn [rev]. now rewrite <- app_assoc.
      * intros k Hk. apply (Hno (S k)). cbn [List.length]. lia.
    + apply (Hno 0%nat). cbn [List.length]. lia.
Qed.

(** A text that contains no blank line and does not end in a newline has no
    blank line starting inside it, whatever follows. *)
Lemma no_blank_line_start (a : str) (c : ascii) (t : str) (k : nat) :
  contains blank_line (a ++ [c]) = false ->
  c <> nl ->
  (k <= List.length a)%nat ->
  startswith blank_line (skipn k ((a ++ [c]) ++ t)) = false.
Proof.
  revert k; induction a as [|x a IH]; intros k Hc Hnl Hk.
  - destruct k; [|cbn in Hk; lia].
    cbn [app skipn blank_line startswith].
    destruct (Ascii.eqb nl c) eqn:E; [|reflexivity].
    apply Ascii.eqb_eq in E. now elim Hnl.
  - cbn [app contains] in Hc. apply orb_false_iff in Hc as [Hs Hc].
    destruct k as [|k].
    + cbn [skipn app]. cbn [blank_line startswith] in Hs |- *.
      destruct (Ascii.eqb nl x); [|reflexivity]. cbn [andb] in Hs |- *.
      destruct a as [|y a]; cbn [app] in Hs |- *;
        destruct (Ascii.eqb nl _); (reflexivity || discriminate Hs).
    + cbn [app skipn]. apply IH; try assumption. cbn in Hk. lia.
Qed.

Lemma trimmed_last (b : str) :
  b <> [] -> strip b = b ->
  exists a c, b = a ++ [c] /\ isspace c = false.
Proof.
  intros Hne Hs.
  assert (Hr : rstrip b = b).
  { rewrite <- Hs at 1. unfold strip. rewrite rstrip_idem. exact Hs. }
  unfold rstrip in Hr.
  destruct (lstrip (rev b)) as [|c r] eqn:E.
  - cbn in Hr. now elim Hne.
  - exists (rev r), c. split.
    + rewrite <- Hr. reflexivity.
    + exact (lstrip_head (rev b) c r E).
Qed.

Lemma trimmed_first (b : str) :
  b <> [] -> strip b = b -> lstrip b = b.
Proof.
  intros _ Hs. rewrite <- Hs at 1. rewrite lstrip_strip. exact Hs.
Qed.

Lemma isspace_nl : isspace nl = true.
Proof. reflexivity. Qed.

(** A block as the parser accepts it and as a well-formed completion
    carries it: both markers, no white space around it, no blank line in
    it. *)
Lemma split_join_blocks (blocks : list str) :
  blocks <> [] ->
  Forall (fun b => b <> [] /\ strip b = b /\ contains blank_line b = false)
    blocks ->
  split blank_line (join blank_line blocks) = blocks.
Proof.
  intros Hne Hall. unfold split.
  induction Hall as [|b rest (Hb & Hs & Hc) Hrest IH]; [now elim Hne|].
  destruct (trimmed_last b Hb Hs) as (a & c & -> & Hsp).
  assert (Hnl : c <> nl) by (intros ->; rewrite isspace_nl in Hsp; discriminate).
  assert (Hsep : blank_line <> []) by discriminate.
  destruct rest as [|b' rest].
  - cbn [join]. rewrite split_go_no_sep; [reflexivity|assumption|].
    intros k Hk. rewrite length_app in Hk. cbn [List.length] in Hk.
    rewrite <- (app_nil_r (a ++ [c])).
    apply no_blank_line_start; (assumption || lia).
  - change (join blank_line ((a ++ [c]) :: b' :: rest))
      with ((a ++ [c]) ++ blank_line ++ join blank_line (b' :: rest)).
    rewrite split_go_app_sep; [|assumption|].
    + cbn [rev app]. f_equal. apply IH. discriminate.
    + intros k Hk. rewrite length_app in Hk. cbn [List.length] in Hk.
      apply no_blank_line_start; (assumption || lia).
Qed.

Lemma join_first (sep : str) (b : str) (rest : list str) :
  exists t, join sep (b :: rest) = b ++ t.
Proof.
  destruct rest; cbn [join]; [exists []; now rewrite app_nil_r|eauto].
Qed.

Lemma join_cons (sep x : str) (rest : list str) :
  rest <> [] -> join sep (x :: rest) = x ++ sep ++ join sep rest.
Proof. destruct rest; [intros H; now elim H|reflexivity]. Qed.

Lemma join_last (sep : str) (blocks : list str) (b : str) :
  exists t, join sep (blocks ++ [b]) = t ++ b.
Proof.
  induction blocks as [|x blocks [t IH]]; [exists []; reflexivity|].
  cbn [app]. rewrite join_cons by (destruct blocks; discriminate).
  rewrite IH. exists (x ++ sep ++ t). now rewrite <- !app_assoc.
Qed.

Lemma strip_join_blocks (blocks : list str) :
  Forall (fun b => b <> [] /\ strip b = b /\ contains blank_line b = false)
    blocks ->
  strip (join blank_line blocks) = join blank_line blocks.
Proof.
  intros Hall. destruct blocks as [|b rest]; [reflexivity|].
  assert (Hl : lstrip (join blank_line (b :: rest))
               = join blank_line (b :: rest)).
  { inversion Hall as [|? ? (Hb & Hs & _) _]; subst.
    destruct (join_first blank_line b rest) as [t ->].
    pose proof (trimmed_first b Hb Hs) as Hf.
    destruct b as [|c r]; [now elim Hb|].
    cbn [app]. apply lstrip_nonspace.
    exact (lstrip_head (c :: r) c r Hf). }
  unfold strip. rewrite Hl.
  destruct (exists_last (l := b :: rest) ltac:(discriminate))
    as (init & z & E).
  rewrite E in Hall |- *.
  apply Forall_app in Hall as [_ Hz].
  inversion Hz as [|? ? (Hb & Hs & _) _]; subst.
  destruct (join_last blank_line init z) as [t ->].
  destruct (trimmed_last z Hb Hs) as (a & c & -> & Hsp).
  unfold rstrip. rewrite !rev_app_distr. cbn [rev app].
  cbn [lstrip]. rewrite Hsp.
  cbn [rev]. rewrite !rev_app_distr, !rev_involutive.
  cbn [rev app]. now rewrite <- !app_assoc.
Qed.

(** X14. A completion text made of blocks joined by blank lines, each
    block holding both markers, free of white space at its ends and of
    blank lines inside, is read back block by block: the questions are
    those of the first [k] blocks, one per block, in order. *)
Theorem generate_from_joined_blocks
  (query : str) (blocks : list str) (k : nat) :
  Forall (fun b => accepted b = true
                   /\ strip b = b
                   /\ contains blank_line b = false) blocks ->
  generate_quiz_questions_with_rag query (Z.of_nat k)
    (Content (join blank_line blocks))
  = map parse_block (firstn k blocks).
Proof.
  intros Hall.
  rewrite generate_content, slice_to_nonneg, Nat2Z.id by lia.
  destruct blocks as [|b rest]; [destruct k; reflexivity|].
  assert (Hall' : Forall (fun b => b <> [] /\ strip b = b
                                   /\ contains blank_line b = false)
                    (b :: rest)).
  { eapply Forall_impl; [|exact Hall].
    intros x (Ha & Hs & Hc). repeat split; try assumption.
    intros ->. discriminate Ha. }
  unfold quiz_blocks.
  rewrite strip_join_blocks, split_join_blocks by (assumption || discriminate).
  assert (Hf : filter accepted (b :: rest) = b :: rest).
  { apply forallb_filter_id. apply forallb_forall.
    intros x Hx. rewrite Forall_forall in Hall. now apply Hall. }
  rewrite Hf. now rewrite firstn_map.
Qed.

Lemma generate_from_joined_blocks_witness :
  generate_quiz_questions_with_rag [] 5
    (Content
       (join blank_line
          [block_sample "Question: one" " a" " e1";
           block_sample "Question: two" " B" " e2"]))
  = [parse_block (block_sample "Question: one" " a" " e1");
     parse_block (block_sample "Question: two" " B" " e2")].
Proof.
  apply (generate_from_joined_blocks []
           [block_sample "Question: one" " a" " e1";
            block_sample "Question: two" " B" " e2"] 5).
  repeat constructor.
Defined.

(** * Retrieval and prompts *)

Lemma contains_self (s : str) : contains s s = true.
Proof.
  pose proof (contains_marker s [] []) as H.
  cbn [app] in H. now rewrite app_nil_r in H.
Qed.

Lemma contains_decompose (sep s : str) :
  contains sep s = true -> exists a t, s = a ++ sep ++ t.
Proof.
  induction s as [|c s IH]; cbn [contains]; intros H.
  - rewrite orb_false_r in H. apply startswith_split in H.
    exists [], (skipn (List.length sep) []). exact H.
  - apply orb_true_iff in H as [H|H].
    + apply startswith_split in H.
      exists [], (skipn (List.length sep) (c :: s)). exact H.
    + destruct (IH H) as (a & t & ->). exists (c :: a), t. reflexivity.
Qed.

Lemma contains_trans (p c s : str) :
  contains p c = true -> contains c s = true -> contains p s = true.
Proof.
  intros Hp Hc. destruct (contains_decompose c s Hc) as (a & t & ->).
  apply contains_app_r. now apply contains_app_l.
Qed.

Lemma contains_join (sep p : str) (parts : list str) :
  In p parts -> contains p (join sep parts) = true.
Proof.
  induction parts as [|x rest IH]; [intros []|].
  intros [->|Hin].
  - destruct (join_first sep p rest) as [t ->].
    apply contains_app_l, contains_self.
  - rewrite join_cons by (intros ->; destruct Hin).
    apply contains_app_r, contains_app_r. now apply IH.
Qed.

Ltac find_in_content ctx :=
  repeat match goal with
         | |- contains ctx (?h ++ _) = true =>
             tryif constr_eq h ctx then fail else apply contains_app_r
         end;
  apply contains_app_l, contains_self.

Lemma quiz_user_content_context (n : Z) (ctx : str) :
  contains ctx (quiz_user_content n ctx) = true.
Proof. unfold quiz_user_content. find_in_content ctx. Qed.

Lemma answer_user_content_context (ctx query : str) :
  contains ctx (answer_user_content ctx query) = true.
Proof. unfold answer_user_content. find_in_content ctx. Qed.

Lemma answer_user_content_query (ctx query : str) :
  contains query (answer_user_content ctx query) = true.
Proof.
  unfold answer_user_content.
  do 9 apply contains_app_r. find_in_content query.
Qed.

Lemma prompt_user_content (vectorstore : VectorStore) (query : str) :
  user_content (prompt_request vectorstore query)
  = if wants_summary query
    then lit "Summarize the following text:" ++ [nl; nl]
         ++ join blank_line (retrieve_relevant_chunks vectorstore query 3)
    else answer_user_content
           (join blank_line (retrieve_relevant_chunks vectorstore query 3))
           query.
Proof.
  unfold prompt_request, user_content. cbn [messages].
  destruct (wants_summary query); reflexivity.
Qed.

Lemma prompt_user_content_context (vectorstore : VectorStore) (query : str) :
  contains (join blank_line (retrieve_relevant_chunks vectorstore query 3))
    (user_content (prompt_request vectorstore query)) = true.
Proof.
  rewrite prompt_user_content. destruct (wants_summary query).
  - apply contains_app_r, contains_app_r, contains_self.
  - apply answer_user_content_context.
Qed.

(** X15. When the search of the vector store raises,
    [retrieve_relevant_chunks] returns the error text as its one passage;
    that text is then exactly the context of the quiz prompt and of the
    [handle_prompt] prompt, and the requests that are sent and the result
    of [chat_response] are those of a search that found the error text as
    its only passage: the failure takes no path of its own. *)
Theorem retrieval_failure_becomes_context
  (vectorstore : VectorStore) (query e : str) :
  vectorstore query 3%Z = SearchFailed e ->
  let found : VectorStore := fun _ _ => Found [retrieval_error e] in
  retrieve_relevant_chunks vectorstore query 3 = [retrieval_error e]
  /\ (forall n : Z,
        user_content (quiz_request vectorstore query n)
        = quiz_user_content n (retrieval_error e))
  /\ user_content (prompt_request vectorstore query)
     = (if wants_summary query
        then lit "Summarize the following text:" ++ [nl; nl]
             ++ retrieval_error e
        else answer_user_content (retrieval_error e) query)
  /\ (forall n : Z,
        quiz_request vectorstore query n = quiz_request found query n)
  /\ prompt_request vectorstore query = prompt_request found query
  /\ (forall (client : Client) (n : Z),
        generate_quiz vectorstore client query n
        = generate_quiz found client query n)
  /\ (forall (client : Client) (history : History) (st : Session),
        chat vectorstore client history query st
        = chat found client history query st).
Proof.
  intros H found.
  assert (E : retrieve_relevant_chunks vectorstore query 3
              = [retrieval_error e])
    by (unfold retrieve_relevant_chunks; now rewrite H).
  assert (Hq : forall n, quiz_request vectorstore query n
                         = quiz_request found query n)
    by (intros n; unfold quiz_request; now rewrite E).
  assert (Hp : prompt_request vectorstore query = prompt_request found query)
    by (unfold prompt_request; now rewrite E).
  split; [exact E|]. split; [|split; [|split; [|split; [|split]]]].
  - intros n. rewrite Hq. reflexivity.
  - rewrite prompt_user_content, E. reflexivity.
  - exact Hq.
  - exact Hp.
  - intros client n. unfold generate_quiz. now rewrite Hq.
  - intros client history st. unfold chat, completion_for.
    rewrite Hp. destruct (contains (lit "quiz") (lower query)); [|reflexivity].
    destruct (fst (quiz_count query initial_session)); [reflexivity|].
    now rewrite Hq.
Qed.

Lemma retrieval_failure_becomes_context_witness :
  user_content
    (quiz_request (fun _ _ => SearchFailed (lit "index missing"))
       (lit "quiz me 3") 3)
  = quiz_user_content 3 (retrieval_error (lit "index missing")).
Proof.
  exact (proj1 (proj2 (retrieval_failure_becomes_context
                         (fun _ _ => SearchFailed (lit "index missing"))
                         (lit "quiz me 3") (lit "index missing")
                         eq_refl)) 3%Z).
Defined.

(** X16. Every passage the search returns appears verbatim in the user
    message of the request that is sent, for a quiz request and for a chat
    request; the query itself appears in the message of a chat request
    that is not a summary request. *)
Theorem passages_reach_prompt
  (vectorstore : VectorStore) (query : str) (passages : list str)
  (p : str) (n : Z) :
  vectorstore query 3%Z = Found passages ->
  In p passages ->
  contains p (user_content (quiz_request vectorstore query n)) = true
  /\ contains p (user_content (prompt_request vectorstore query)) = true
  /\ (wants_summary query = false ->
      contains query (user_content (prompt_request vectorstore query))
      = true).
Proof.
  intros H Hin.
  assert (E : retrieve_relevant_chunks vectorstore query 3 = passages)
    by (unfold retrieve_relevant_chunks; now rewrite H).
  pose proof (contains_join blank_line p passages Hin) as Hp.
  split; [|split].
  - unfold quiz_request, user_content. cbn [messages]. rewrite E.
    apply (contains_trans p (join blank_line passages)); [exact Hp|].
    apply quiz_user_content_context.
  - apply (contains_trans p (join blank_line passages)); [exact Hp|].
    rewrite <- E. apply prompt_user_content_context.
  - intros Hs. rewrite prompt_user_content, Hs.
    apply answer_user_content_query.
Qed.

Lemma passages_reach_prompt_witness :
  contains (lit "second passage")
    (user_content
       (prompt_request
          (fun _ _ => Found [lit "first passage"; lit "second passage"])
          (lit "what is it"))) = true.
Proof.
  exact (proj1 (proj2 (passages_reach_prompt
                         (fun _ _ => Found [lit "first passage";
                                            lit "second passage"])
                         (lit "what is it")
                         [lit "first passage"; lit "second passage"]
                         (lit "second passage") 0
                         eq_refl ltac:(right; left; reflexivity)))).
Defined.

(** X17. A request that is not a quiz request never raises and leaves the
    session as it is; it adds one entry to the history, the query with
    the trimmed completion of the [handle_prompt] request or, when the
    completion call fails, with "Error: " and the cause; the quiz widgets
    are emptied and both buttons disabled, for a summary as for an
    answer. *)
Theorem chat_plain_request
  (vectorstore : VectorStore) (client : Client)
  (history : History) (query : str) (st : Session) :
  contains (lit "quiz") (lower query) = false ->
  chat vectorstore client history query st
  = (inr (history
          ++ [(query,
               match client (prompt_request vectorstore query) with
               | Content text => strip text
               | Failed e => lit "Error: " ++ e
               end)],
          [], [], [], false, false),
     st).
Proof.
  intros Hq. unfold chat, completion_for. rewrite Hq.
  now rewrite chat_response_no_quiz.
Qed.

Lemma chat_plain_request_witness :
  chat (fun _ _ => Found []) (fun _ => Content (lit " Paris. "))
    [] (lit "what is the capital") (session_two 1 true)
  = (inr ([(lit "what is the capital", lit "Paris.")],
          [], [], [], false, false),
     session_two 1 true).
Proof.
  exact (chat_plain_request (fun _ _ => Found [])
           (fun _ => Content (lit " Paris. "))
           [] (lit "what is the capital") (session_two 1 true) eq_refl).
Defined.

(** ** Counts as text *)

Lemma int_acc_uint (d : Decimal.uint) (acc : positive) :
  fold_left (fun a c => 10 * a + digit_val c)%Z
    (lit (DecimalString.NilEmpty.string_of_uint d)) (Zpos acc)
  = Zpos (Pos.of_uint_acc d acc).
Proof.
  unfold lit. revert acc; induction d; intros acc;
    cbn [DecimalString.NilEmpty.string_of_uint list_ascii_of_string
         fold_left Pos.of_uint_acc];
    [reflexivity|..];
    match goal with
    | |- fold_left _ _ ?a = Z.pos (Pos.of_uint_acc _ ?p) =>
        replace a with (Z.pos p);
        [apply IHd
        |match goal with
         | |- context [digit_val ?c] =>
             let v := eval vm_compute in (digit_val c) in
             change (digit_val c) with v; lia
         end]
    end.
Qed.

Lemma decimal_value_uint (d : Decimal.uint) :
  decimal_value (lit (DecimalString.NilEmpty.string_of_uint d))
  = Z.of_N (Pos.of_uint d).
Proof.
  unfold decimal_value, lit. induction d;
    cbn [DecimalString.NilEmpty.string_of_uint list_ascii_of_string
         fold_left Pos.of_uint];
    [reflexivity|exact IHd|..];
    cbn [Z.of_N]; apply (int_acc_uint d).
Qed.

Lemma digits_uint (d : Decimal.uint) :
  forallb isdigit_char (lit (DecimalString.NilEmpty.string_of_uint d)) = true.
Proof.
  unfold lit. induction d;
    cbn [DecimalString.NilEmpty.string_of_uint list_ascii_of_string
         forallb];
    [reflexivity|..]; rewrite IHd; reflexivity.
Qed.

Lemma str_of_int_nonneg (n : Z) :
  (0 <= n)%Z ->
  exists d, d <> Decimal.Nil
            /\ str_of_int n = lit (DecimalString.NilEmpty.string_of_uint d)
            /\ Z.of_N (Pos.of_uint d) = n.
Proof.
  intros H. destruct n as [|p|p]; [| |lia].
  - exists (Decimal.D0 Decimal.Nil). repeat split. discriminate.
  - exists (Pos.to_uint p). split; [apply DecimalPos.Unsigned.to_uint_nonnil|].
    split.
    + unfold str_of_int. cbn [Z.to_int DecimalString.NilZero.string_of_int].
      unfold DecimalString.NilZero.string_of_uint.
      pose proof (DecimalPos.Unsigned.to_uint_nonnil p) as Hn.
      destruct (Pos.to_uint p); [now elim Hn|reflexivity..].
    + now rewrite DecimalPos.Unsigned.of_to.
Qed.

Lemma str_of_int_digits (n : Z) :
  (0 <= n)%Z ->
  isdigit (str_of_int n) = true
  /\ forallb isdigit_char (str_of_int n) = true
  /\ decimal_value (str_of_int n) = n.
Proof.
  intros H. destruct (str_of_int_nonneg n H) as (d & Hd & -> & Hv).
  pose proof (digits_uint d) as Hall.
  split; [|split].
  - unfold isdigit.
    destruct (lit (DecimalString.NilEmpty.string_of_uint d)) eqn:E;
      [|exact Hall].
    destruct d; (now elim Hd) || discriminate E.
  - exact Hall.
  - now rewrite decimal_value_uint.
Qed.

Lemma isdigit_char_ascii (c : ascii) :
  isdigit_char c = true -> is_ascii_char c = true.
Proof.
  unfold isdigit_char, is_ascii_char. intros H.
  apply andb_true_iff in H as [_ H]. apply N.leb_le in H.
  apply N.ltb_lt. lia.
Qed.

Lemma digits_ascii (s : str) :
  forallb isdigit_char s = true -> is_ascii s = true.
Proof.
  unfold is_ascii. intros H. apply forallb_forall. intros c Hc.
  apply isdigit_char_ascii.
  rewrite forallb_forall in H. now apply H.
Qed.

Lemma digits_no_space (s : str) (k : nat) (t : str) :
  forallb isdigit_char s = true ->
  (k < List.length s)%nat ->
  startswith (lit " ") (skipn k (s ++ t)) = false.
Proof.
  revert k; induction s as [|c s IH]; intros k H Hk; [cbn in Hk; lia|].
  cbn [forallb] in H. apply andb_true_iff in H as [Hc Hs].
  destruct k as [|k].
  - cbn [skipn app lit list_ascii_of_string startswith].
    destruct (Ascii.eqb " " c) eqn:E; [|reflexivity].
    apply Ascii.eqb_eq in E. subst c. discriminate Hc.
  - cbn [skipn app]. apply IH; [exact Hs|cbn in Hk; lia].
Qed.

Lemma word_no_space (w : str) (k : nat) (t : str) :
  contains (lit " ") w = false ->
  (k < List.length w)%nat ->
  startswith (lit " ") (skipn k (w ++ t)) = false.
Proof.
  revert k; induction w as [|c w IH]; intros k H Hk; [cbn in Hk; lia|].
  cbn [contains] in H. apply orb_false_iff in H as [Hc Hw].
  destruct k as [|k].
  - cbn [skipn app]. cbn [lit list_ascii_of_string startswith] in Hc |- *.
    destruct (Ascii.eqb " " c); [discriminate Hc|reflexivity].
  - cbn [skipn app]. apply IH; [exact Hw|cbn in Hk; lia].
Qed.

(** X18. [str] and [int] are inverse on the counts [int] accepts: a
    non-negative count whose decimal text has at most 4300 digits, written
    as the third word of a query after two words without spaces, is an
    ASCII digit string, is read back as the same number by [quiz_count],
    and is the number the prompt asks for. *)
Theorem quiz_count_round_trip
  (vectorstore : VectorStore) (w0 w1 : str) (n : Z) (st : Session) :
  (0 <= n)%Z ->
  (List.length (str_of_int n) <= max_str_digits)%nat ->
  contains (lit " ") w0 = false ->
  contains (lit " ") w1 = false ->
  let query := w0 ++ lit " " ++ w1 ++ lit " " ++ str_of_int n in
  isdigit (str_of_int n) = true
  /\ is_ascii (str_of_int n) = true
  /\ int (str_of_int n) = Some n
  /\ quiz_count query st = (inr n, st)
  /\ contains (lit "Generate exactly " ++ str_of_int n
               ++ lit " multiple-choice quiz questions")
       (user_content (quiz_request vectorstore query n)) = true.
Proof.
  intros Hn Hlen H0 H1 query.
  destruct (str_of_int_digits n Hn) as (Hd & Hall & Hi).
  assert (Hint : int (str_of_int n) = Some n)
    by now rewrite (int_within_limit _ Hlen), Hi.
  assert (Hsep : lit " " <> []) by discriminate.
  assert (Hs : split (lit " ") query = [w0; w1; str_of_int n]).
  { unfold split, query.
    rewrite split_go_app_sep by (assumption || (intros k Hk; now apply word_no_space)).
    rewrite split_go_app_sep by (assumption || (intros k Hk; now apply word_no_space)).
    rewrite split_go_no_sep; [reflexivity|assumption|].
    intros k Hk. rewrite <- (app_nil_r (str_of_int n)).
    now apply digits_no_space. }
  split; [exact Hd|]. split; [now apply digits_ascii|].
  split; [exact Hint|]. split.
  - rewrite (quiz_count_tokens query st w0 w1 (str_of_int n) [] Hs).
    now rewrite Hd, Hint.
  - unfold quiz_request, user_content. cbn [messages].
    unfold quiz_user_content.
    apply contains_app_r, contains_app_r.
    change (lit " multiple-choice quiz questions based on the following context.")
      with (lit " multiple-choice quiz questions"
            ++ lit " based on the following context.").
    match goal with
    | |- contains ?x (?a ++ ?b ++ (?c ++ ?d) ++ ?e) = true =>
        replace (a ++ b ++ (c ++ d) ++ e) with (x ++ d ++ e)
          by (now rewrite <- !app_assoc)
    end.
    apply contains_app_l, contains_self.
Qed.

Lemma quiz_count_round_trip_witness :
  quiz_count (lit "quiz" ++ lit " " ++ lit "me" ++ lit " " ++ str_of_int 12)
    initial_session
  = (inr 12%Z, initial_session).
Proof.
  exact (proj1 (proj2 (proj2 (proj2 (quiz_count_round_trip
                                       (fun _ _ => Found [])
                                       (lit "quiz") (lit "me") 12
                                       initial_session
                                       ltac:(lia)
                                       ltac:(unfold max_str_digits; cbn; lia)
                                       eq_refl eq_refl))))).
Defined.

(** * The quiz panel and the upload *)

Lemma handle_panel_request (r : Request) (st : Session) :
  quiz_panel_request r = true ->
  quiz_data (handle r st) = quiz_data st
  /\ (current_question st <= current_question (handle r st))%Z.
Proof.
  destruct r as [history query c|user_answer|]; [discriminate| |];
    intros _; cbn [handle].
  - destruct (submit_answer_position user_answer st) as [Hd Hp].
    rewrite Hd, Hp. split; [reflexivity|lia].
  - destruct (next_question_position st) as [Hd [Hp|[Hp _]]];
      rewrite Hd, Hp; split; (reflexivity || lia).
Qed.

(** X19. Answers and "Next Question" never change the questions and never
    move the position back: whatever sequence of them is handled, the
    question list is the one the last quiz request produced and the
    position is at least what it was. *)
Theorem quiz_panel_keeps_questions (requests : list Request) (st : Session) :
  forallb quiz_panel_request requests = true ->
  quiz_data (run requests st) = quiz_data st
  /\ (current_question st <= current_question (run requests st))%Z.
Proof.
  unfold run. revert st; induction requests as [|r requests IH]; intros st H.
  - split; [reflexivity|cbn; lia].
  - cbn [forallb] in H. apply andb_true_iff in H as [Hr Hrest].
    cbn [fold_left].
    destruct (handle_panel_request r st Hr) as [Hd Hp].
    destruct (IH (handle r st) Hrest) as [Hd' Hp'].
    split; [now rewrite Hd', Hd|lia].
Qed.

Lemma quiz_panel_keeps_questions_witness :
  quiz_data
    (run [SubmitAnswer (lit "b"); NextQuestion; NextQuestion;
          SubmitAnswer []]
       (session_two 0 false))
  = [q_sample; q_other].
Proof.
  exact (proj1 (quiz_panel_keeps_questions
                  [SubmitAnswer (lit "b"); NextQuestion; NextQuestion;
                   SubmitAnswer []]
                  (session_two 0 false) eq_refl)).
Defined.

(** X20. [process_upload] reports success exactly when a file was given
    and its ingestion did not raise; every other result is a text that
    starts with "Error". *)
Theorem process_upload_result
  (ingest : str -> Ingestion) (file : option str) :
  (process_upload ingest file = lit "Knowledge base loaded successfully!"
   <-> exists name, file = Some name /\ ingest name = Stored)
  /\ (process_upload ingest file <> lit "Knowledge base loaded successfully!"
      -> startswith (lit "Error") (process_upload ingest file) = true).
Proof.
  unfold process_upload, preprocess_pdf_to_knowledge_base.
  destruct file as [name|].
  - destruct (ingest name) as [|e] eqn:E.
    + split; [split|].
      * intros _. exists name. now split.
      * reflexivity.
      * intros H. now elim H.
    + split; [split|].
      * intros H. discriminate H.
      * intros (name' & Hn & Hs). injection Hn as <-. congruence.
      * intros _. reflexivity.
  - split; [split|].
    + intros H. discriminate H.
    + intros (name & Hn & _). discriminate Hn.
    + intros _. reflexivity.
Qed.

Lemma process_upload_result_witness :
  startswith (lit "Error")
    (process_upload (fun _ => IngestionFailed (lit "not a PDF"))
       (Some (lit "notes.txt"))) = true.
Proof.
  apply (proj2 (process_upload_result
                  (fun _ => IngestionFailed (lit "not a PDF"))
                  (Some (lit "notes.txt")))).
  discriminate.
Defined.
